(** * Discovery registry, route manager and QoS helpers of zenoh-plugin-ros2

    Shallow embedding of [node_info.rs], [discovered_entities.rs],
    [routes_mgr.rs], [config.rs], [qos_helpers.rs] and [route_publisher.rs].
    Rust [String]s are byte strings ([string] = list of bytes), [HashMap]s are
    stdpp [gmap]s (iteration in [map_to_list] order), fixed-width integers
    are [Z] with their range written out. *)

From Stdlib Require Import ZArith Lia Ascii.
From stdpp Require Import base gmap sets list strings.
Import ListNotations.



(* ------------------------------------------------------------------ *)
(** ** Gid (gid.rs) *)

(** Modelled from the spec: [gid.rs] is not part of [src/].  A Gid is 16
    raw bytes, seen here as a natural number below 2^128.  The sentinel
    [NOT_DISCOVERED] marks slots awaiting resolution, and it is the value
    of [Gid::default()] used by the derived [Default] of the entity
    records ([ServiceSrvEntities::default()] and siblings). *)
Definition Gid := N.
Definition NOT_DISCOVERED : Gid := 0%N.
Definition gid_default : Gid := NOT_DISCOVERED.
Definition gid_eqb (a b : Gid) : bool := N.eqb a b.

(* ------------------------------------------------------------------ *)
(** ** Interfaces (node_info.rs) *)

Module TopicPub.
Record t := mk { name : string; typ : string; writer : Gid }.
Definition create (name typ : string) (writer : Gid) : t := mk name typ writer.
End TopicPub.

Module TopicSub.
Record t := mk { name : string; typ : string; reader : Gid }.
Definition create (name typ : string) (reader : Gid) : t := mk name typ reader.
End TopicSub.

Module ServiceSrvEntities.
Record t := mk { req_reader : Gid; rep_writer : Gid }.
Definition default : t := mk gid_default gid_default.
Definition is_complete (e : t) : bool :=
  negb (gid_eqb (req_reader e) NOT_DISCOVERED)
  && negb (gid_eqb (rep_writer e) NOT_DISCOVERED).
End ServiceSrvEntities.

Module ServiceSrv.
Record t := mk { name : string; typ : string; entities : ServiceSrvEntities.t }.
Definition create (name typ : string) : t := mk name typ ServiceSrvEntities.default.
Definition is_complete (v : t) : bool := ServiceSrvEntities.is_complete (entities v).
End ServiceSrv.

Module ServiceCliEntities.
Record t := mk { req_writer : Gid; rep_reader : Gid }.
Definition default : t := mk gid_default gid_default.
Definition is_complete (e : t) : bool :=
  negb (gid_eqb (rep_reader e) NOT_DISCOVERED)
  && negb (gid_eqb (req_writer e) NOT_DISCOVERED).
End ServiceCliEntities.

Module ServiceCli.
Record t := mk { name : string; typ : string; entities : ServiceCliEntities.t }.
Definition create (name typ : string) : t := mk name typ ServiceCliEntities.default.
Definition is_complete (v : t) : bool := ServiceCliEntities.is_complete (entities v).
End ServiceCli.

Module ActionSrvEntities.
Record t := mk {
  send_goal : ServiceSrvEntities.t;
  cancel_goal : ServiceSrvEntities.t;
  get_result : ServiceSrvEntities.t;
  status_writer : Gid;
  feedback_writer : Gid }.
Definition default : t :=
  mk ServiceSrvEntities.default ServiceSrvEntities.default
     ServiceSrvEntities.default gid_default gid_default.
Definition is_complete (e : t) : bool :=
  ServiceSrvEntities.is_complete (send_goal e)
  && ServiceSrvEntities.is_complete (cancel_goal e)
  && ServiceSrvEntities.is_complete (get_result e)
  && negb (gid_eqb (status_writer e) NOT_DISCOVERED)
  && negb (gid_eqb (feedback_writer e) NOT_DISCOVERED).
End ActionSrvEntities.

Module ActionSrv.
Record t := mk { name : string; typ : string; entities : ActionSrvEntities.t }.
Definition create (name typ : string) : t := mk name typ ActionSrvEntities.default.
Definition is_complete (v : t) : bool := ActionSrvEntities.is_complete (entities v).
End ActionSrv.

Module ActionCliEntities.
Record t := mk {
  send_goal : ServiceCliEntities.t;
  cancel_goal : ServiceCliEntities.t;
  get_result : ServiceCliEntities.t;
  status_reader : Gid;
  feedback_reader : Gid }.
Definition default : t :=
  mk ServiceCliEntities.default ServiceCliEntities.default
     ServiceCliEntities.default gid_default gid_default.
Definition is_complete (e : t) : bool :=
  ServiceCliEntities.is_complete (send_goal e)
  && ServiceCliEntities.is_complete (cancel_goal e)
  && ServiceCliEntities.is_complete (get_result e)
  && negb (gid_eqb (status_reader e) NOT_DISCOVERED)
  && negb (gid_eqb (feedback_reader e) NOT_DISCOVERED).
End ActionCliEntities.

Module ActionCli.
Record t := mk { name : string; typ : string; entities : ActionCliEntities.t }.
Definition create (name typ : string) : t := mk name typ ActionCliEntities.default.
Definition is_complete (v : t) : bool := ActionCliEntities.is_complete (entities v).
End ActionCli.

(** The discovery events, with the shape [node_info.rs] and [routes_mgr.rs]
    use: the node's fullname and a clone of the interface. *)
Inductive ROS2DiscoveryEvent :=
| DiscoveredTopicPub (node : string) (iface : TopicPub.t)
| UndiscoveredTopicPub (node : string) (iface : TopicPub.t)
| DiscoveredTopicSub (node : string) (iface : TopicSub.t)
| UndiscoveredTopicSub (node : string) (iface : TopicSub.t)
| DiscoveredServiceSrv (node : string) (iface : ServiceSrv.t)
| UndiscoveredServiceSrv (node : string) (iface : ServiceSrv.t)
| DiscoveredServiceCli (node : string) (iface : ServiceCli.t)
| UndiscoveredServiceCli (node : string) (iface : ServiceCli.t)
| DiscoveredActionSrv (node : string) (iface : ActionSrv.t)
| UndiscoveredActionSrv (node : string) (iface : ActionSrv.t)
| DiscoveredActionCli (node : string) (iface : ActionCli.t)
| UndiscoveredActionCli (node : string) (iface : ActionCli.t).

Definition is_discovered_event (e : ROS2DiscoveryEvent) : bool :=
  match e with
  | DiscoveredTopicPub _ _ | DiscoveredTopicSub _ _ | DiscoveredServiceSrv _ _
  | DiscoveredServiceCli _ _ | DiscoveredActionSrv _ _ | DiscoveredActionCli _ _ => true
  | _ => false
  end.

(* ------------------------------------------------------------------ *)
(** ** The three shapes of [NodeInfo::update_*]

    Every [update_*] method of [NodeInfo] is one of three copies of the same
    code, differing only in the map, the interface type and the Gid slot
    they write.  Each shape is written once here, over the slot's getter and
    setter; the [Entry::Vacant] and [Entry::Occupied] branches follow the
    source line by line ([log::*] calls omitted). *)
Section SlotUpdate.
Context {I : Type}.
Variable i_typ : I -> string.
Variable with_typ : I -> string -> I.
Variable complete : I -> bool.
Variable slot : I -> Gid.
Variable with_slot : I -> Gid -> I.

(** [update_topic_pub] / [update_topic_sub]: an event on creation and on
    any change, with no completeness test. *)
Definition update_topic_slot (mk : string -> string -> Gid -> I)
    (m : gmap string I) (name typ : string) (g : Gid) : gmap string I * option I :=
  match m !! name with
  | None => let v := mk name typ g in (<[name := v]> m, Some v)
  | Some v =>
      let '(v1, r1) :=
        if String.eqb (i_typ v) typ then (v, None)
        else let v' := with_typ v typ in (v', Some v') in
      let '(v2, r2) :=
        if gid_eqb (slot v1) g then (v1, r1)
        else let v' := with_slot v1 g in (v', Some v') in
      (<[name := v2]> m, r2)
  end.

(** Services and typed action endpoints: no event on creation, an event
    on a change that leaves the interface complete. *)
Definition update_typed_slot (create : string -> string -> I)
    (m : gmap string I) (name typ : string) (g : Gid) : gmap string I * option I :=
  match m !! name with
  | None => (<[name := with_slot (create name typ) g]> m, None)
  | Some v =>
      let '(v1, r1) :=
        if String.eqb (i_typ v) typ then (v, None)
        else let v' := with_typ v typ in (v', if complete v' then Some v' else None) in
      let '(v2, r2) :=
        if gid_eqb (slot v1) g then (v1, r1)
        else let v' := with_slot v1 g in (v', if complete v' then Some v' else r1) in
      (<[name := v2]> m, r2)
  end.

(** Cancel-goal and status endpoints: created with an empty type, the
    recorded type is never touched. *)
Definition update_untyped_slot (create : string -> string -> I)
    (m : gmap string I) (name : string) (g : Gid) : gmap string I * option I :=
  match m !! name with
  | None => (<[name := with_slot (create name "") g]> m, None)
  | Some v =>
      if gid_eqb (slot v) g then (m, None)
      else let v' := with_slot v g in
           (<[name := v']> m, if complete v' then Some v' else None)
  end.
End SlotUpdate.

(* ------------------------------------------------------------------ *)
(** ** NodeInfo (node_info.rs) *)

Module NodeInfo.
Record t := mk {
  fullname : string;
  node_name_idx : nat;
  participant : Gid;
  topic_pub : gmap string TopicPub.t;
  topic_sub : gmap string TopicSub.t;
  service_srv : gmap string ServiceSrv.t;
  service_cli : gmap string ServiceCli.t;
  action_srv : gmap string ActionSrv.t;
  action_cli : gmap string ActionCli.t;
  undiscovered_reader : list Gid;
  undiscovered_writer : list Gid }.

(** [NodeInfo::create] *)
Definition create (namespace node_name : string) (participant : Gid) : t :=
  let '(fullname, node_name_idx) :=
    if String.eqb namespace "/" then (String.append "/" node_name, 1)
    else (String.append namespace (String.append "/" node_name),
          String.length namespace + 1) in
  mk fullname node_name_idx participant ∅ ∅ ∅ ∅ ∅ ∅ [] [].

Definition with_topic_pub (n : t) m : t :=
  mk (fullname n) (node_name_idx n) (participant n) m (topic_sub n) (service_srv n)
     (service_cli n) (action_srv n) (action_cli n) (undiscovered_reader n) (undiscovered_writer n).
Definition with_topic_sub (n : t) m : t :=
  mk (fullname n) (node_name_idx n) (participant n) (topic_pub n) m (service_srv n)
     (service_cli n) (action_srv n) (action_cli n) (undiscovered_reader n) (undiscovered_writer n).
Definition with_service_srv (n : t) m : t :=
  mk (fullname n) (node_name_idx n) (participant n) (topic_pub n) (topic_sub n) m
     (service_cli n) (action_srv n) (action_cli n) (undiscovered_reader n) (undiscovered_writer n).
Definition with_service_cli (n : t) m : t :=
  mk (fullname n) (node_name_idx n) (participant n) (topic_pub n) (topic_sub n) (service_srv n)
     m (action_srv n) (action_cli n) (undiscovered_reader n) (undiscovered_writer n).
Definition with_action_srv (n : t) m : t :=
  mk (fullname n) (node_name_idx n) (participant n) (topic_pub n) (topic_sub n) (service_srv n)
     (service_cli n) m (action_cli n) (undiscovered_reader n) (undiscovered_writer n).
Definition with_action_cli (n : t) m : t :=
  mk (fullname n) (node_name_idx n) (participant n) (topic_pub n) (topic_sub n) (service_srv n)
     (service_cli n) (action_srv n) m (undiscovered_reader n) (undiscovered_writer n).
Definition with_undiscovered (n : t) (rs ws : list Gid) : t :=
  mk (fullname n) (node_name_idx n) (participant n) (topic_pub n) (topic_sub n) (service_srv n)
     (service_cli n) (action_srv n) (action_cli n) rs ws.
End NodeInfo.

(** Getters and setters of the Gid slots and of the type field. *)
Definition tp_with_typ (v : TopicPub.t) s := TopicPub.mk (TopicPub.name v) s (TopicPub.writer v).
Definition tp_with_writer (v : TopicPub.t) g := TopicPub.mk (TopicPub.name v) (TopicPub.typ v) g.
Definition ts_with_typ (v : TopicSub.t) s := TopicSub.mk (TopicSub.name v) s (TopicSub.reader v).
Definition ts_with_reader (v : TopicSub.t) g := TopicSub.mk (TopicSub.name v) (TopicSub.typ v) g.

Definition ss_with_typ (v : ServiceSrv.t) s := ServiceSrv.mk (ServiceSrv.name v) s (ServiceSrv.entities v).
Definition ss_with_entities (v : ServiceSrv.t) e := ServiceSrv.mk (ServiceSrv.name v) (ServiceSrv.typ v) e.
Definition sse_with_req_reader (e : ServiceSrvEntities.t) g :=
  ServiceSrvEntities.mk g (ServiceSrvEntities.rep_writer e).
Definition sse_with_rep_writer (e : ServiceSrvEntities.t) g :=
  ServiceSrvEntities.mk (ServiceSrvEntities.req_reader e) g.
Definition ss_req_reader (v : ServiceSrv.t) := ServiceSrvEntities.req_reader (ServiceSrv.entities v).
Definition ss_rep_writer (v : ServiceSrv.t) := ServiceSrvEntities.rep_writer (ServiceSrv.entities v).
Definition ss_with_req_reader v g := ss_with_entities v (sse_with_req_reader (ServiceSrv.entities v) g).
Definition ss_with_rep_writer v g := ss_with_entities v (sse_with_rep_writer (ServiceSrv.entities v) g).

Definition sc_with_typ (v : ServiceCli.t) s := ServiceCli.mk (ServiceCli.name v) s (ServiceCli.entities v).
Definition sc_with_entities (v : ServiceCli.t) e := ServiceCli.mk (ServiceCli.name v) (ServiceCli.typ v) e.
Definition sce_with_req_writer (e : ServiceCliEntities.t) g :=
  ServiceCliEntities.mk g (ServiceCliEntities.rep_reader e).
Definition sce_with_rep_reader (e : ServiceCliEntities.t) g :=
  ServiceCliEntities.mk (ServiceCliEntities.req_writer e) g.
Definition sc_req_writer (v : ServiceCli.t) := ServiceCliEntities.req_writer (ServiceCli.entities v).
Definition sc_rep_reader (v : ServiceCli.t) := ServiceCliEntities.rep_reader (ServiceCli.entities v).
Definition sc_with_req_writer v g := sc_with_entities v (sce_with_req_writer (ServiceCli.entities v) g).
Definition sc_with_rep_reader v g := sc_with_entities v (sce_with_rep_reader (ServiceCli.entities v) g).

Module ASE := ActionSrvEntities.
Definition as_with_typ (v : ActionSrv.t) s := ActionSrv.mk (ActionSrv.name v) s (ActionSrv.entities v).
Definition as_map (v : ActionSrv.t) (f : ASE.t -> ASE.t) :=
  ActionSrv.mk (ActionSrv.name v) (ActionSrv.typ v) (f (ActionSrv.entities v)).
Definition ase_send (f : ServiceSrvEntities.t -> ServiceSrvEntities.t) (e : ASE.t) :=
  ASE.mk (f (ASE.send_goal e)) (ASE.cancel_goal e) (ASE.get_result e) (ASE.status_writer e) (ASE.feedback_writer e).
Definition ase_cancel (f : ServiceSrvEntities.t -> ServiceSrvEntities.t) (e : ASE.t) :=
  ASE.mk (ASE.send_goal e) (f (ASE.cancel_goal e)) (ASE.get_result e) (ASE.status_writer e) (ASE.feedback_writer e).
Definition ase_result (f : ServiceSrvEntities.t -> ServiceSrvEntities.t) (e : ASE.t) :=
  ASE.mk (ASE.send_goal e) (ASE.cancel_goal e) (f (ASE.get_result e)) (ASE.status_writer e) (ASE.feedback_writer e).
Definition ase_status g (e : ASE.t) :=
  ASE.mk (ASE.send_goal e) (ASE.cancel_goal e) (ASE.get_result e) g (ASE.feedback_writer e).
Definition ase_feedback g (e : ASE.t) :=
  ASE.mk (ASE.send_goal e) (ASE.cancel_goal e) (ASE.get_result e) (ASE.status_writer e) g.

Module ACE := ActionCliEntities.
Definition ac_with_typ (v : ActionCli.t) s := ActionCli.mk (ActionCli.name v) s (ActionCli.entities v).
Definition ac_map (v : ActionCli.t) (f : ACE.t -> ACE.t) :=
  ActionCli.mk (ActionCli.name v) (ActionCli.typ v) (f (ActionCli.entities v)).
Definition ace_send (f : ServiceCliEntities.t -> ServiceCliEntities.t) (e : ACE.t) :=
  ACE.mk (f (ACE.send_goal e)) (ACE.cancel_goal e) (ACE.get_result e) (ACE.status_reader e) (ACE.feedback_reader e).
Definition ace_cancel (f : ServiceCliEntities.t -> ServiceCliEntities.t) (e : ACE.t) :=
  ACE.mk (ACE.send_goal e) (f (ACE.cancel_goal e)) (ACE.get_result e) (ACE.status_reader e) (ACE.feedback_reader e).
Definition ace_result (f : ServiceCliEntities.t -> ServiceCliEntities.t) (e : ACE.t) :=
  ACE.mk (ACE.send_goal e) (ACE.cancel_goal e) (f (ACE.get_result e)) (ACE.status_reader e) (ACE.feedback_reader e).
Definition ace_status g (e : ACE.t) :=
  ACE.mk (ACE.send_goal e) (ACE.cancel_goal e) (ACE.get_result e) g (ACE.feedback_reader e).
Definition ace_feedback g (e : ACE.t) :=
  ACE.mk (ACE.send_goal e) (ACE.cancel_goal e) (ACE.get_result e) (ACE.status_reader e) g.

(* ------------------------------------------------------------------ *)
(** ** The [NodeInfo::update_*] methods

    Each returns the updated node and the [Option<ROS2DiscoveryEvent>] of
    the source. *)

Section NodeUpdates.
Variable n : NodeInfo.t.
Let fullname := NodeInfo.fullname n.

Definition update_topic_pub (name typ : string) (writer : Gid) :=
  let '(m, r) := update_topic_slot TopicPub.typ tp_with_typ TopicPub.writer tp_with_writer
                   TopicPub.create (NodeInfo.topic_pub n) name typ writer in
  (NodeInfo.with_topic_pub n m, DiscoveredTopicPub fullname <$> r).

Definition update_topic_sub (name typ : string) (reader : Gid) :=
  let '(m, r) := update_topic_slot TopicSub.typ ts_with_typ TopicSub.reader ts_with_reader
                   TopicSub.create (NodeInfo.topic_sub n) name typ reader in
  (NodeInfo.with_topic_sub n m, DiscoveredTopicSub fullname <$> r).

Definition update_service_srv_req_reader (name typ : string) (reader : Gid) :=
  let '(m, r) := update_typed_slot ServiceSrv.typ ss_with_typ ServiceSrv.is_complete
                   ss_req_reader ss_with_req_reader ServiceSrv.create
                   (NodeInfo.service_srv n) name typ reader in
  (NodeInfo.with_service_srv n m, DiscoveredServiceSrv fullname <$> r).

Definition update_service_srv_rep_writer (name typ : string) (writer : Gid) :=
  let '(m, r) := update_typed_slot ServiceSrv.typ ss_with_typ ServiceSrv.is_complete
                   ss_rep_writer ss_with_rep_writer ServiceSrv.create
                   (NodeInfo.service_srv n) name typ writer in
  (NodeInfo.with_service_srv n m, DiscoveredServiceSrv fullname <$> r).

Definition update_service_cli_rep_reader (name typ : string) (reader : Gid) :=
  let '(m, r) := update_typed_slot ServiceCli.typ sc_with_typ ServiceCli.is_complete
                   sc_rep_reader sc_with_rep_reader ServiceCli.create
                   (NodeInfo.service_cli n) name typ reader in
  (NodeInfo.with_service_cli n m, DiscoveredServiceCli fullname <$> r).

Definition update_service_cli_req_writer (name typ : string) (writer : Gid) :=
  let '(m, r) := update_typed_slot ServiceCli.typ sc_with_typ ServiceCli.is_complete
                   sc_req_writer sc_with_req_writer ServiceCli.create
                   (NodeInfo.service_cli n) name typ writer in
  (NodeInfo.with_service_cli n m, DiscoveredServiceCli fullname <$> r).

(** Action servers: the typed slots and the untyped ones (cancel_goal,
    status). *)
Definition action_srv_typed (get : ActionSrv.t -> Gid) (set : ActionSrv.t -> Gid -> ActionSrv.t)
    (name typ : string) (g : Gid) :=
  let '(m, r) := update_typed_slot ActionSrv.typ as_with_typ ActionSrv.is_complete get set
                   ActionSrv.create (NodeInfo.action_srv n) name typ g in
  (NodeInfo.with_action_srv n m, DiscoveredActionSrv fullname <$> r).
Definition action_srv_untyped (get : ActionSrv.t -> Gid) (set : ActionSrv.t -> Gid -> ActionSrv.t)
    (name : string) (g : Gid) :=
  let '(m, r) := update_untyped_slot ActionSrv.is_complete get set
                   ActionSrv.create (NodeInfo.action_srv n) name g in
  (NodeInfo.with_action_srv n m, DiscoveredActionSrv fullname <$> r).

Definition update_action_srv_send_req_reader :=
  action_srv_typed (fun v => ServiceSrvEntities.req_reader (ASE.send_goal (ActionSrv.entities v)))
    (fun v g => as_map v (ase_send (fun s => sse_with_req_reader s g))).
Definition update_action_srv_send_rep_writer :=
  action_srv_typed (fun v => ServiceSrvEntities.rep_writer (ASE.send_goal (ActionSrv.entities v)))
    (fun v g => as_map v (ase_send (fun s => sse_with_rep_writer s g))).
Definition update_action_srv_cancel_req_reader :=
  action_srv_untyped (fun v => ServiceSrvEntities.req_reader (ASE.cancel_goal (ActionSrv.entities v)))
    (fun v g => as_map v (ase_cancel (fun s => sse_with_req_reader s g))).
Definition update_action_srv_cancel_rep_writer :=
  action_srv_untyped (fun v => ServiceSrvEntities.rep_writer (ASE.cancel_goal (ActionSrv.entities v)))
    (fun v g => as_map v (ase_cancel (fun s => sse_with_rep_writer s g))).
Definition update_action_srv_result_req_reader :=
  action_srv_typed (fun v => ServiceSrvEntities.req_reader (ASE.get_result (ActionSrv.entities v)))
    (fun v g => as_map v (ase_result (fun s => sse_with_req_reader s g))).
Definition update_action_srv_result_rep_writer :=
  action_srv_typed (fun v => ServiceSrvEntities.rep_writer (ASE.get_result (ActionSrv.entities v)))
    (fun v g => as_map v (ase_result (fun s => sse_with_rep_writer s g))).
Definition update_action_srv_status_writer :=
  action_srv_untyped (fun v => ASE.status_writer (ActionSrv.entities v))
    (fun v g => as_map v (ase_status g)).
Definition update_action_srv_feedback_writer :=
  action_srv_typed (fun v => ASE.feedback_writer (ActionSrv.entities v))
    (fun v g => as_map v (ase_feedback g)).

(** Action clients. *)
Definition action_cli_typed (get : ActionCli.t -> Gid) (set : ActionCli.t -> Gid -> ActionCli.t)
    (name typ : string) (g : Gid) :=
  let '(m, r) := update_typed_slot ActionCli.typ ac_with_typ ActionCli.is_complete get set
                   ActionCli.create (NodeInfo.action_cli n) name typ g in
  (NodeInfo.with_action_cli n m, DiscoveredActionCli fullname <$> r).
Definition action_cli_untyped (get : ActionCli.t -> Gid) (set : ActionCli.t -> Gid -> ActionCli.t)
    (name : string) (g : Gid) :=
  let '(m, r) := update_untyped_slot ActionCli.is_complete get set
                   ActionCli.create (NodeInfo.action_cli n) name g in
  (NodeInfo.with_action_cli n m, DiscoveredActionCli fullname <$> r).

Definition update_action_cli_send_rep_reader :=
  action_cli_typed (fun v => ServiceCliEntities.rep_reader (ACE.send_goal (ActionCli.entities v)))
    (fun v g => ac_map v (ace_send (fun s => sce_with_rep_reader s g))).
Definition update_action_cli_send_req_writer :=
  action_cli_typed (fun v => ServiceCliEntities.req_writer (ACE.send_goal (ActionCli.entities v)))
    (fun v g => ac_map v (ace_send (fun s => sce_with_req_writer s g))).
Definition update_action_cli_cancel_rep_reader :=
  action_cli_untyped (fun v => ServiceCliEntities.rep_reader (ACE.cancel_goal (ActionCli.entities v)))
    (fun v g => ac_map v (ace_cancel (fun s => sce_with_rep_reader s g))).
Definition update_action_cli_cancel_req_writer :=
  action_cli_untyped (fun v => ServiceCliEntities.req_writer (ACE.cancel_goal (ActionCli.entities v)))
    (fun v g => ac_map v (ace_cancel (fun s => sce_with_req_writer s g))).
Definition update_action_cli_result_rep_reader :=
  action_cli_typed (fun v => ServiceCliEntities.rep_reader (ACE.get_result (ActionCli.entities v)))
    (fun v g => ac_map v (ace_result (fun s => sce_with_rep_reader s g))).
Definition update_action_cli_result_req_writer :=
  action_cli_typed (fun v => ServiceCliEntities.req_writer (ACE.get_result (ActionCli.entities v)))
    (fun v g => ac_map v (ace_result (fun s => sce_with_req_writer s g))).
Definition update_action_cli_status_reader :=
  action_cli_untyped (fun v => ACE.status_reader (ActionCli.entities v))
    (fun v g => ac_map v (ace_status g)).
Definition update_action_cli_feedback_reader :=
  action_cli_typed (fun v => ACE.feedback_reader (ActionCli.entities v))
    (fun v g => ac_map v (ace_feedback g)).
End NodeUpdates.

(** Traces of [update_service_srv_req_reader] / [update_service_srv_rep_writer]
    calls on one service name. *)
Inductive SrvOp :=
| SrvReqReader (typ : string) (g : Gid)
| SrvRepWriter (typ : string) (g : Gid).

Definition is_req_op (op : SrvOp) : bool :=
  match op with SrvReqReader _ _ => true | _ => false end.
Definition is_rep_op (op : SrvOp) : bool :=
  match op with SrvRepWriter _ _ => true | _ => false end.

Definition apply_srv_op (name : string) (n : NodeInfo.t) (op : SrvOp)
    : NodeInfo.t * option ROS2DiscoveryEvent :=
  match op with
  | SrvReqReader typ g => update_service_srv_req_reader n name typ g
  | SrvRepWriter typ g => update_service_srv_rep_writer n name typ g
  end.

Fixpoint run_srv_ops (name : string) (n : NodeInfo.t) (ops : list SrvOp)
    : NodeInfo.t * list (option ROS2DiscoveryEvent) :=
  match ops with
  | [] => (n, [])
  | op :: ops' =>
      let '(n1, r) := apply_srv_op name n op in
      let '(n2, rs) := run_srv_ops name n1 ops' in
      (n2, r :: rs)
  end.

Definition empty_node : NodeInfo.t := NodeInfo.create "/" "n" 1%N.

Example run_srv_ops_both :
  snd (run_srv_ops "/svc" empty_node [SrvReqReader "pkg/Svc" 7%N; SrvRepWriter "pkg/Svc" 8%N])
  = [None; Some (DiscoveredServiceSrv "/n"
                   (ServiceSrv.mk "/svc" "pkg/Svc" (ServiceSrvEntities.mk 7%N 8%N)))].
Proof. reflexivity. Qed.


(* ------------------------------------------------------------------ *)
(** ** Rust [str] operations on byte strings

    A Rust [String] is its UTF-8 bytes; byte-index slicing panics (here:
    [None]) when the index is past the end or not on a char boundary. *)

Definition is_continuation_byte (c : Ascii.ascii) : bool :=
  let k := Ascii.nat_of_ascii c in (128 <=? k)%nat && (k <? 192)%nat.

(** [str::is_char_boundary] *)
Definition is_char_boundary (s : string) (i : nat) : bool :=
  (i =? 0)%nat || (i =? String.length s)%nat ||
  match String.get i s with
  | Some c => negb (is_continuation_byte c)
  | None => false
  end.

(** [&s[..i]] *)
Definition slice_to (s : string) (i : nat) : option string :=
  if (i <=? String.length s)%nat && is_char_boundary s i
  then Some (String.substring 0 i s) else None.

(** [&s[i..]] *)
Definition slice_from (s : string) (i : nat) : option string :=
  if (i <=? String.length s)%nat && is_char_boundary s i
  then Some (String.substring i (String.length s - i) s) else None.

(** [str::ends_with] *)
Definition ends_with (s suf : string) : bool :=
  let n := String.length s in let k := String.length suf in
  (k <=? n)%nat && String.eqb (String.substring (n - k) k s) suf.

(** [str::strip_suffix] *)
Definition strip_suffix (s suf : string) : option string :=
  if ends_with s suf
  then Some (String.substring 0 (String.length s - String.length suf) s) else None.

(** [str::replace]: every non-overlapping occurrence, left to right
    (the patterns used are non-empty, each step consumes a byte). *)
Fixpoint replace_aux (fuel : nat) (pat rep s : string) : string :=
  match fuel with
  | O => s
  | S f =>
      match s with
      | EmptyString => EmptyString
      | String c s' =>
          if String.prefix pat s
          then String.append rep
                 (replace_aux f pat rep
                    (String.substring (String.length pat) (String.length s - String.length pat) s))
          else String c (replace_aux f pat rep s')
      end
  end.
Definition str_replace (s pat rep : string) : string :=
  replace_aux (String.length s) pat rep s.

(** [Option::or] *)
Definition option_or {A} (a b : option A) : option A :=
  match a with Some _ => a | None => b end.

(** [dds_pubsub_topic_to_ros] *)
Definition dds_pubsub_topic_to_ros (dds_topic : string) : string :=
  let result := str_replace (str_replace dds_topic "::dds_::" "::") "::" "/" in
  if ends_with result "_"
  then String.substring 0 (String.length result - 1) result
  else result.

(** [dds_service_topic_to_ros] *)
Definition dds_service_topic_to_ros (dds_topic : string) : string :=
  dds_pubsub_topic_to_ros
    (default dds_topic (option_or (strip_suffix dds_topic "_Request_") (strip_suffix dds_topic "_Response_"))).

(** [dds_action_topic_to_ros] *)
Definition dds_action_topic_to_ros (dds_topic : string) : string :=
  dds_pubsub_topic_to_ros
    (default dds_topic
       (option_or (strip_suffix dds_topic "_SendGoal_Request_")
       (option_or (strip_suffix dds_topic "_SendGoal_Response_")
       (option_or (strip_suffix dds_topic "_GetResult_Request_")
       (option_or (strip_suffix dds_topic "_GetResult_Response_")
                  (strip_suffix dds_topic "_FeedbackMessage_")))))).

Example dds_pubsub_topic_to_ros_foo : dds_pubsub_topic_to_ros "pkg::dds_::Foo_" = "pkg/Foo".
Proof. reflexivity. Qed.

(* ------------------------------------------------------------------ *)
(** ** QoS (the [cyclors::qos] types the plugin reads)

    Integers keep their Rust types' values as [Z]: [max_blocking_time] is a
    [dds_duration_t] (i64), [depth] and [max_instances] are i32.  [Qos] holds
    the policies that the functions modelled here read or set; the other
    policies of [cyclors::qos::Qos] are only ever reset to [None] by
    [adapt_writer_qos_for_reader], and are left out. *)

Inductive ReliabilityKind := BEST_EFFORT | RELIABLE.
Inductive DurabilityKind := VOLATILE | TRANSIENT_LOCAL | TRANSIENT | PERSISTENT.
Inductive HistoryKind := KEEP_LAST | KEEP_ALL.

(** [kind as isize]: the DDS C enum discriminants. *)
Definition ReliabilityKind_as_isize (k : ReliabilityKind) : Z :=
  match k with BEST_EFFORT => 0 | RELIABLE => 1 end.
Definition DurabilityKind_as_isize (k : DurabilityKind) : Z :=
  match k with VOLATILE => 0 | TRANSIENT_LOCAL => 1 | TRANSIENT => 2 | PERSISTENT => 3 end.
Definition HistoryKind_as_isize (k : HistoryKind) : Z :=
  match k with KEEP_LAST => 0 | KEEP_ALL => 1 end.

(** [From<&u32>] for the kinds: an unknown discriminant panics ([None]). *)
Definition ReliabilityKind_from (i : Z) : option ReliabilityKind :=
  match i with 0 => Some BEST_EFFORT | 1 => Some RELIABLE | _ => None end%Z.
Definition DurabilityKind_from (i : Z) : option DurabilityKind :=
  match i with
  | 0 => Some VOLATILE | 1 => Some TRANSIENT_LOCAL | 2 => Some TRANSIENT
  | 3 => Some PERSISTENT | _ => None
  end%Z.
Definition HistoryKind_from (i : Z) : option HistoryKind :=
  match i with 0 => Some KEEP_LAST | 1 => Some KEEP_ALL | _ => None end%Z.

Record Reliability := mkReliability { rel_kind : ReliabilityKind; max_blocking_time : Z }.
Record Durability := mkDurability { dur_kind : DurabilityKind }.
Record History := mkHistory { hist_kind : HistoryKind; depth : Z }.
Record DurabilityService := mkDurabilityService {
  service_cleanup_delay : Z;
  history_kind : HistoryKind;
  history_depth : Z;
  max_samples : Z;
  max_instances : Z;
  max_samples_per_instance : Z }.
Record Qos := mkQos {
  reliability : option Reliability;
  durability : option Durability;
  history : option History;
  durability_service : option DurabilityService }.

(** [Qos::default()]: no policy set. *)
Definition Qos_default : Qos := mkQos None None None None.

Definition DDS_100MS_DURATION : Z := 100000000.
Definition DDS_1S_DURATION : Z := 1000000000.
Definition DDS_LENGTH_UNLIMITED : Z := -1.

(** [History::default()]: the DDS default history, KEEP_LAST 1. *)
Definition History_default : History := mkHistory KEEP_LAST 1.

(** [get_history_or_default] *)
Definition get_history_or_default (qos : Qos) : History :=
  match history qos with None => History_default | Some h => h end.

(** [get_durability_service_or_default], over the library's
    [DurabilityService::default()] value [ds_default]. *)
Definition get_durability_service_or_default (ds_default : DurabilityService) (qos : Qos)
  : DurabilityService :=
  match durability_service qos with None => ds_default | Some d => d end.

(** [is_writer_reliable] *)
Definition is_writer_reliable (r : option Reliability) : bool :=
  match r with
  | None => true
  | Some r => match rel_kind r with RELIABLE => true | BEST_EFFORT => false end
  end.

(** [is_transient_local] *)
Definition is_transient_local (qos : Qos) : bool :=
  match durability qos with
  | Some d => match dur_kind d with TRANSIENT_LOCAL => true | _ => false end
  | None => false
  end.

(** [adapt_writer_qos_for_reader] (on the policies represented). *)
Definition adapt_writer_qos_for_reader (qos : Qos) : Qos :=
  mkQos (match reliability qos with
         | None => Some (mkReliability BEST_EFFORT DDS_100MS_DURATION)
         | r => r
         end)
        (durability qos) (history qos) None.

(* ------------------------------------------------------------------ *)
(** ** Discovered DDS endpoints *)

(** Modelled from the spec: [DdsEntity] (defined in the DDS discovery
    module, not in this source tree): the endpoint's Gid, its participant's
    Gid, topic name, type name, keyless flag and QoS. *)
Record DdsEntity := mkDdsEntity {
  key : Gid;
  participant_key : Gid;
  topic_name : string;
  type_name : string;
  keyless : bool;
  qos : Qos }.

(* ------------------------------------------------------------------ *)
(** ** Endpoint dispatch on the topic name

    The [match topic_prefix { "rt/" if topic_suffix.ends_with(..) => ..}]
    shared by [NodeInfo::update_with_reader] / [update_with_writer] and by
    [DiscoveredEntities::update_node_info].  The callers differ in how the
    type name is passed on: [to_pubsub], [to_service] and [to_action] are the
    conversions applied to it in the topic, service and action branches.
    [None] is a panic (a byte slice off a char boundary); [Some (n', ev)] is
    the updated node and the returned event.  A prefix none of whose
    branches applies is the [_ => None] arm. *)

Section Dispatch.
Variables to_pubsub to_service to_action : string -> string.

Definition dispatch_reader (n : NodeInfo.t) (topic_prefix topic_suffix ty : string) (g : Gid)
  : option (NodeInfo.t * option ROS2DiscoveryEvent) :=
  let cut k := slice_to topic_suffix (String.length topic_suffix - k) in
  if String.eqb topic_prefix "rt/" then
    if ends_with topic_suffix "/_action/status" then
      s ← cut 15; Some (update_action_cli_status_reader n s g)
    else if ends_with topic_suffix "/_action/feedback" then
      s ← cut 17; Some (update_action_cli_feedback_reader n s (to_action ty) g)
    else Some (update_topic_sub n topic_suffix (to_pubsub ty) g)
  else if String.eqb topic_prefix "rq/" then
    if ends_with topic_suffix "/_action/send_goalRequest" then
      s ← cut 25; Some (update_action_srv_send_req_reader n s (to_action ty) g)
    else if ends_with topic_suffix "/_action/cancel_goalRequest" then
      s ← cut 27; Some (update_action_srv_cancel_req_reader n s g)
    else if ends_with topic_suffix "/_action/get_resultRequest" then
      s ← cut 26; Some (update_action_srv_result_req_reader n s (to_action ty) g)
    else if ends_with topic_suffix "Request" then
      s ← cut 7; Some (update_service_srv_req_reader n s (to_service ty) g)
    else Some (n, None)
  else if String.eqb topic_prefix "rr/" then
    if ends_with topic_suffix "/_action/send_goalReply" then
      s ← cut 23; Some (update_action_cli_send_rep_reader n s (to_action ty) g)
    else if ends_with topic_suffix "/_action/cancel_goalReply" then
      s ← cut 25; Some (update_action_cli_cancel_rep_reader n s g)
    else if ends_with topic_suffix "/_action/get_resultReply" then
      s ← cut 24; Some (update_action_cli_result_rep_reader n s (to_action ty) g)
    else if ends_with topic_suffix "Reply" then
      s ← cut 5; Some (update_service_cli_rep_reader n s (to_service ty) g)
    else Some (n, None)
  else Some (n, None).

Definition dispatch_writer (n : NodeInfo.t) (topic_prefix topic_suffix ty : string) (g : Gid)
  : option (NodeInfo.t * option ROS2DiscoveryEvent) :=
  let cut k := slice_to topic_suffix (String.length topic_suffix - k) in
  if String.eqb topic_prefix "rt/" then
    if ends_with topic_suffix "/_action/status" then
      s ← cut 15; Some (update_action_srv_status_writer n s g)
    else if ends_with topic_suffix "/_action/feedback" then
      s ← cut 17; Some (update_action_srv_feedback_writer n s (to_action ty) g)
    else Some (update_topic_pub n topic_suffix (to_pubsub ty) g)
  else if String.eqb topic_prefix "rq/" then
    if ends_with topic_suffix "/_action/send_goalRequest" then
      s ← cut 25; Some (update_action_cli_send_req_writer n s (to_action ty) g)
    else if ends_with topic_suffix "/_action/cancel_goalRequest" then
      s ← cut 27; Some (update_action_cli_cancel_req_writer n s g)
    else if ends_with topic_suffix "/_action/get_resultRequest" then
      s ← cut 26; Some (update_action_cli_result_req_writer n s (to_action ty) g)
    else if ends_with topic_suffix "Request" then
      s ← cut 7; Some (update_service_cli_req_writer n s (to_service ty) g)
    else Some (n, None)
  else if String.eqb topic_prefix "rr/" then
    if ends_with topic_suffix "/_action/send_goalReply" then
      s ← cut 23; Some (update_action_srv_send_rep_writer n s (to_action ty) g)
    else if ends_with topic_suffix "/_action/cancel_goalReply" then
      s ← cut 25; Some (update_action_srv_cancel_rep_writer n s g)
    else if ends_with topic_suffix "/_action/get_resultReply" then
      s ← cut 24; Some (update_action_srv_result_rep_writer n s (to_action ty) g)
    else if ends_with topic_suffix "Reply" then
      s ← cut 5; Some (update_service_srv_rep_writer n s (to_service ty) g)
    else Some (n, None)
  else Some (n, None).
End Dispatch.

(** [NodeInfo::update_with_reader]: the prefix is [topic_name[..3]], the
    suffix [topic_name[2..]] (it keeps the '/'), and the type name is
    converted to its ROS 2 form. *)
Definition update_with_reader (n : NodeInfo.t) (entity : DdsEntity)
  : option (NodeInfo.t * option ROS2DiscoveryEvent) :=
  topic_prefix ← slice_to (topic_name entity) 3;
  topic_suffix ← slice_from (topic_name entity) 2;
  dispatch_reader dds_pubsub_topic_to_ros dds_service_topic_to_ros dds_action_topic_to_ros
    n topic_prefix topic_suffix (type_name entity) (key entity).

(** [NodeInfo::update_with_writer] *)
Definition update_with_writer (n : NodeInfo.t) (entity : DdsEntity)
  : option (NodeInfo.t * option ROS2DiscoveryEvent) :=
  topic_prefix ← slice_to (topic_name entity) 3;
  topic_suffix ← slice_from (topic_name entity) 2;
  dispatch_writer dds_pubsub_topic_to_ros dds_service_topic_to_ros dds_action_topic_to_ros
    n topic_prefix topic_suffix (type_name entity) (key entity).

(* ------------------------------------------------------------------ *)
(** ** Removals: [remove_all_entities], [remove_reader], [remove_writer]

    A [HashMap] is iterated in [map_to_list] order; [iter().find(..)] is the
    first entry of that list satisfying the test.  [remove(&name).unwrap()]
    returns the entry just found. *)


(** [drain()] of one map into events. *)
Definition drain_events {I} (mk : string -> I -> ROS2DiscoveryEvent) (f : string)
    (m : gmap string I) : list ROS2DiscoveryEvent :=
  (fun kv => mk f kv.2) <$> map_to_list m.

(** [NodeInfo::remove_all_entities] *)
Definition remove_all_entities (n : NodeInfo.t) : NodeInfo.t * list ROS2DiscoveryEvent :=
  let f := NodeInfo.fullname n in
  let events :=
    drain_events UndiscoveredTopicPub f (NodeInfo.topic_pub n)
    ++ drain_events UndiscoveredTopicSub f (NodeInfo.topic_sub n)
    ++ drain_events UndiscoveredServiceSrv f (NodeInfo.service_srv n)
    ++ drain_events UndiscoveredServiceCli f (NodeInfo.service_cli n)
    ++ drain_events UndiscoveredActionSrv f (NodeInfo.action_srv n)
    ++ drain_events UndiscoveredActionCli f (NodeInfo.action_cli n) in
  (NodeInfo.mk f (NodeInfo.node_name_idx n) (NodeInfo.participant n) ∅ ∅ ∅ ∅ ∅ ∅ [] [], events).









(** Is the interface an [Undiscovered*] event carries complete? *)
Definition event_iface_complete (ev : ROS2DiscoveryEvent) : bool :=
  match ev with
  | UndiscoveredServiceSrv _ v => ServiceSrv.is_complete v
  | UndiscoveredServiceCli _ v => ServiceCli.is_complete v
  | UndiscoveredActionSrv _ v => ActionSrv.is_complete v
  | UndiscoveredActionCli _ v => ActionCli.is_complete v
  | _ => true
  end.


(* ------------------------------------------------------------------ *)
(** ** The entity registry (discovered_entities.rs) *)

(** Modelled from the spec: [NodeEntitiesInfo] and [ParticipantEntitiesInfo]
    (the participant manifest, defined in the ROS discovery module, not in
    this source tree): a node's namespace, name, reader and writer Gids; a
    participant's Gid and its nodes keyed by full name. *)
Record NodeEntitiesInfo := mkNodeEntitiesInfo {
  node_namespace : string;
  node_name : string;
  reader_gid_seq : list Gid;
  writer_gid_seq : list Gid }.

Record ParticipantEntitiesInfo := mkParticipantEntitiesInfo {
  gid : Gid;
  node_entities_info_seq : gmap string NodeEntitiesInfo }.

(** [EntityRef] *)
Inductive EntityRef :=
| Participant (g : Gid)
| Writer (g : Gid)
| Reader (g : Gid)
| Node (g : Gid) (name : string).

(** An admin-space key expression built by [keformat!] is kept as the
    pattern it instantiates and the values put in the pattern's holes
    ([pgid], [wgid], and the [topic] / [fullname] path). *)
Inductive KePattern := KeParticipant | KeWriter | KeReader | KeNode.
Definition KePattern_tag (p : KePattern) : nat :=
  match p with KeParticipant => 0 | KeWriter => 1 | KeReader => 2 | KeNode => 3 end.
Definition AdminKey := (nat * Gid * Gid * string)%type.

Definition ke_admin_participant (pgid : Gid) : AdminKey :=
  (KePattern_tag KeParticipant, pgid, 0%N, EmptyString).
Definition ke_admin_writer (pgid wgid : Gid) (topic : string) : AdminKey :=
  (KePattern_tag KeWriter, pgid, wgid, topic).
Definition ke_admin_reader (pgid wgid : Gid) (topic : string) : AdminKey :=
  (KePattern_tag KeReader, pgid, wgid, topic).
Definition ke_admin_node (pgid : Gid) (fullname : string) : AdminKey :=
  (KePattern_tag KeNode, pgid, 0%N, fullname).

(** [DiscoveredEntities]; the [participants] table is not read by the
    functions modelled here and is left out. *)
Record DiscoveredEntities := mkDiscoveredEntities {
  writers : gmap Gid DdsEntity;
  readers : gmap Gid DdsEntity;
  ros_participant_info : gmap Gid ParticipantEntitiesInfo;
  nodes_info : gmap Gid (gmap string NodeInfo.t);
  admin_space : gmap AdminKey EntityRef }.

Definition DiscoveredEntities_default : DiscoveredEntities :=
  mkDiscoveredEntities ∅ ∅ ∅ ∅ ∅.

(** [DiscoveredEntities::add_writer] *)
Definition add_writer (de : DiscoveredEntities) (writer : DdsEntity) : DiscoveredEntities :=
  mkDiscoveredEntities
    (<[key writer := writer]> (writers de)) (readers de) (ros_participant_info de) (nodes_info de)
    (<[ke_admin_writer (participant_key writer) (key writer) (topic_name writer)
        := Writer (key writer)]> (admin_space de)).

(** [DiscoveredEntities::add_reader] *)
Definition add_reader (de : DiscoveredEntities) (reader : DdsEntity) : DiscoveredEntities :=
  mkDiscoveredEntities
    (writers de) (<[key reader := reader]> (readers de)) (ros_participant_info de) (nodes_info de)
    (<[ke_admin_reader (participant_key reader) (key reader) (topic_name reader)
        := Reader (key reader)]> (admin_space de)).

(** [str::split_at]: panics off a char boundary. *)
Definition split_at (s : string) (i : nat) : option (string * string) :=
  a ← slice_to s i; b ← slice_from s i; Some (a, b).

(** Option to list: the event an update returned, if any. *)
Definition option_list {A} (o : option A) : list A :=
  match o with Some a => [a] | None => [] end.

(** A loop over a list whose body may panic and declares events. *)
Fixpoint fold_declare {A B} (f : A -> B -> option (A * list ROS2DiscoveryEvent))
    (a : A) (l : list B) : option (A * list ROS2DiscoveryEvent) :=
  match l with
  | [] => Some (a, [])
  | b :: l' => '(a1, e1) ← f a b; '(a2, e2) ← fold_declare f a1 l'; Some (a2, e1 ++ e2)
  end.

(** [DiscoveredEntities::update_node_info].  The source returns [()]: the
    event each update returns is only logged ([log::warn!("{} declares
    {e:?}")]).  The model returns the updated node together with that log of
    declared events.  The endpoint's [type_name] is passed unconverted; the
    cancel-goal and status updates take no type. *)
Definition update_node_reader (readers : gmap Gid DdsEntity) (node : NodeInfo.t) (rgid : Gid)
  : option (NodeInfo.t * list ROS2DiscoveryEvent) :=
  match readers !! rgid with
  | Some entity =>
      '(topic_prefix, topic_suffix) ← split_at (topic_name entity) 3;
      '(node', event) ← dispatch_reader id id id node topic_prefix topic_suffix
                          (type_name entity) rgid;
      Some (node', option_list event)
  | None =>
      Some (NodeInfo.with_undiscovered node (NodeInfo.undiscovered_reader node ++ [rgid])
              (NodeInfo.undiscovered_writer node), [])
  end.

Definition update_node_writer (writers : gmap Gid DdsEntity) (node : NodeInfo.t) (wgid : Gid)
  : option (NodeInfo.t * list ROS2DiscoveryEvent) :=
  match writers !! wgid with
  | Some entity =>
      '(topic_prefix, topic_suffix) ← split_at (topic_name entity) 3;
      '(node', event) ← dispatch_writer id id id node topic_prefix topic_suffix
                          (type_name entity) wgid;
      Some (node', option_list event)
  | None =>
      Some (NodeInfo.with_undiscovered node (NodeInfo.undiscovered_reader node)
              (NodeInfo.undiscovered_writer node ++ [wgid]), [])
  end.

Definition update_node_info (node : NodeInfo.t) (ros_node_info : NodeEntitiesInfo)
    (readers writers : gmap Gid DdsEntity) : option (NodeInfo.t * list ROS2DiscoveryEvent) :=
  '(node1, e1) ← fold_declare (update_node_reader readers) node (reader_gid_seq ros_node_info);
  '(node2, e2) ← fold_declare (update_node_writer writers) node1 (writer_gid_seq ros_node_info);
  Some (node2, e1 ++ e2).

(** [nodes_map.retain(..)]: the admin entry of every node missing from the
    manifest is removed ([&name[1..]] may panic), and the node dropped. *)
Definition retain_admin (pgid : Gid) (seq : gmap string NodeEntitiesInfo)
    (admin : gmap AdminKey EntityRef) (name : string) : option (gmap AdminKey EntityRef) :=
  match seq !! name with
  | Some _ => Some admin
  | None => fullname ← slice_from name 1; Some (delete (ke_admin_node pgid fullname) admin)
  end.

Fixpoint fold_option {A B} (f : A -> B -> option A) (a : A) (l : list B) : option A :=
  match l with [] => Some a | b :: l' => a' ← f a b; fold_option f a' l' end.

(** One iteration of [for (name, ros_node_info) in &ros_info.node_entities_info_seq]. *)
Definition update_one_node (pgid : Gid) (readers writers : gmap Gid DdsEntity)
    (st : gmap string NodeInfo.t * gmap AdminKey EntityRef) (entry : string * NodeEntitiesInfo)
  : option ((gmap string NodeInfo.t * gmap AdminKey EntityRef) * list ROS2DiscoveryEvent) :=
  let '(nodes_map, admin) := st in
  let '(name, ros_node_info) := entry in
  let node := match nodes_map !! name with
              | Some nd => nd
              | None => NodeInfo.create (node_namespace ros_node_info) (node_name ros_node_info) pgid
              end in
  '(node', declared) ← update_node_info node ros_node_info readers writers;
  fullname ← slice_from name 1;
  Some ((<[name := node']> nodes_map, <[ke_admin_node pgid fullname := Node pgid name]> admin),
        declared).

(** [DiscoveredEntities::update_participant_info].  The source returns
    [()]; the model returns the new registry and the log of the events the
    node updates declared.  [None] is a panic. *)
Definition update_participant_info (de : DiscoveredEntities) (ros_info : ParticipantEntitiesInfo)
  : option (DiscoveredEntities * list ROS2DiscoveryEvent) :=
  let pgid := gid ros_info in
  let seq := node_entities_info_seq ros_info in
  let nodes_map := default ∅ (nodes_info de !! pgid) in
  admin1 ← fold_option (retain_admin pgid seq) (admin_space de) (map fst (map_to_list nodes_map));
  let nodes_map1 := filter (fun kv => is_Some (seq !! kv.1)) nodes_map in
  '((nodes_map2, admin2), declared) ←
     fold_declare (update_one_node pgid (readers de) (writers de)) (nodes_map1, admin1)
       (map_to_list seq);
  Some (mkDiscoveredEntities (writers de) (readers de)
          (<[pgid := ros_info]> (ros_participant_info de))
          (<[pgid := nodes_map2]> (nodes_info de)) admin2,
        declared).

(** The publication scenario of the spec: writer W1 (Gid 11) of participant
    P1 (Gid 1) on topic "rt/foo" with type "pkg::dds_::Foo_", and P1's
    manifest listing node "/n" with writers [W1]. *)
Definition pub_foo_writer : DdsEntity :=
  mkDdsEntity 11%N 1%N "rt/foo" "pkg::dds_::Foo_" true Qos_default.
Definition manifest_n_w1 : ParticipantEntitiesInfo :=
  mkParticipantEntitiesInfo 1%N {[ "/n" := mkNodeEntitiesInfo "/" "n" [] [11%N] ]}.

(** The node "/n" of P1 in a registry. *)
Definition node_n_of (de : DiscoveredEntities) : option NodeInfo.t :=
  nodes_info de !! 1%N ≫= (fun m => m !! "/n").

(** An update's result is no event or a [Discovered*] event. *)
Definition events_discovered (o : option ROS2DiscoveryEvent) : Prop :=
  forall e, o = Some e -> is_discovered_event e = true.

(** The registry after the publication scenario (writer W1, then the
    manifest of P1), and a later manifest of P1 that lists no node. *)
Definition registry_after_manifest : DiscoveredEntities :=
  default DiscoveredEntities_default
    (fst <$> update_participant_info (add_writer DiscoveredEntities_default pub_foo_writer)
               manifest_n_w1).
Definition manifest_empty : ParticipantEntitiesInfo :=
  mkParticipantEntitiesInfo 1%N ∅.

(* ------------------------------------------------------------------ *)
(** ** Configuration: allow / deny policy *)

(** [Result<T, String>] *)
Inductive Result (A : Type) := Ok (a : A) | Err (e : string).
Arguments Ok {A} a.
Arguments Err {A} e.

(** Modelled from the spec: a compiled [Regex] (regex crate), represented
    by its [is_match] function. *)
Record Regex := mkRegex { is_match : string -> bool }.

(** [ROS2InterfacesRegex] *)
Record ROS2InterfacesRegex := mkROS2InterfacesRegex {
  publishers : option Regex;
  subscribers : option Regex;
  service_servers : option Regex;
  service_clients : option Regex;
  action_servers : option Regex;
  action_clients : option Regex }.

(** [Allowance] *)
Inductive Allowance :=
| Allow (r : ROS2InterfacesRegex)
| Deny (r : ROS2InterfacesRegex).

(** [Allowance::is_publisher_allowed] *)
Definition is_publisher_allowed (a : Allowance) (name : string) : bool :=
  match a with
  | Allow r => default false ((fun re => is_match re name) <$> publishers r)
  | Deny r => default true ((fun re => negb (is_match re name)) <$> publishers r)
  end.

(** [Config], on the fields the route manager reads. *)
Record Config := mkConfig {
  allowance : option Allowance;
  reliable_routes_blocking : bool }.

Fixpoint has_newline (s : string) : bool :=
  match s with
  | EmptyString => false
  | String c r => Ascii.eqb c (Ascii.ascii_of_nat 10) || has_newline r
  end.

(** Modelled from the spec: the regex [^foo/.*$] ('.' matches any
    character but a newline). *)
Definition re_foo_any : Regex :=
  mkRegex (fun s => String.prefix "foo/" s
                    && negb (has_newline (String.substring 4 (String.length s - 4) s))).

(** The allow policy [allow.publishers = "^foo/.*$"]. *)
Definition allow_foo_publishers : Allowance :=
  Allow (mkROS2InterfacesRegex (Some re_foo_any) None None None None None).

(* ------------------------------------------------------------------ *)
(** ** Route manager *)

(** Modelled from the spec: a route's two reference sets, [local_nodes]
    (node full names) and [remote_routes] (admin key expressions), as in
    [RouteSubscriber]; the [RoutePublisher] of this tree declares neither
    these sets nor [add_local_node], which [RoutesMgr] calls on it. *)
Record Route := mkRoute {
  local_nodes : gset string;
  remote_routes : gset string }.

(** [add_local_node] *)
Definition add_local_node (r : Route) (entity_key : string) : Route :=
  mkRoute ({[entity_key]} ∪ local_nodes r) (remote_routes r).

(** [remove_local_node] *)
Definition remove_local_node (r : Route) (entity_key : string) : Route :=
  mkRoute (local_nodes r ∖ {[entity_key]}) (remote_routes r).

Definition is_serving_local_node (r : Route) : bool :=
  negb (bool_decide (local_nodes r = ∅)).
Definition is_serving_remote_route (r : Route) : bool :=
  negb (bool_decide (remote_routes r = ∅)).

(** [is_unused] *)
Definition is_unused (r : Route) : bool :=
  negb (is_serving_local_node r) && negb (is_serving_remote_route r).

(** [RouteRef] *)
Inductive RouteRef :=
| PublisherRoute (name : string)
| SubscriberRoute (name : string).

(** Modelled from the spec: [name_as_keyexpr] (not in this tree), the
    interface name used as a key expression. *)
Definition name_as_keyexpr (name : string) : string := name.

Definition KE_PREFIX_ROUTE_PUBLISHER : string := "route/topic/pub".
Definition KE_PREFIX_ROUTE_SUBSCRIBER : string := "route/topic/sub".

(** [prefix / ke] *)
Definition ke_join (prefix ke : string) : string :=
  String.append prefix (String.append "/" ke).

(** [RoutesMgr], on the fields [update] reads or writes; the registry is
    the shared [discovered_entities]. *)
Record RoutesMgr := mkRoutesMgr {
  config : Config;
  discovered_entities : DiscoveredEntities;
  routes_publishers : gmap string Route;
  routes_subscribers : gmap string Route;
  routes_admin_space : gmap string RouteRef }.

(** [RoutesMgr::create] *)
Definition RoutesMgr_create (config : Config) (de : DiscoveredEntities) : RoutesMgr :=
  mkRoutesMgr config de ∅ ∅ ∅.

Definition with_routes_publishers (rm : RoutesMgr) m : RoutesMgr :=
  mkRoutesMgr (config rm) (discovered_entities rm) m (routes_subscribers rm) (routes_admin_space rm).
Definition with_routes_subscribers (rm : RoutesMgr) m : RoutesMgr :=
  mkRoutesMgr (config rm) (discovered_entities rm) (routes_publishers rm) m (routes_admin_space rm).
Definition with_config (rm : RoutesMgr) c : RoutesMgr :=
  mkRoutesMgr c (discovered_entities rm) (routes_publishers rm) (routes_subscribers rm)
    (routes_admin_space rm).

Section Routing.

(** The native route constructors [RoutePublisher::create] and
    [RouteSubscriber::create] (DDS and zenoh entity creation), which may
    fail.  [create_route_publisher] receives the interface name and type,
    the writer's topic name, type name and keyless flag, the adapted reader
    QoS, the key expression and whether congestion control is [Block];
    [create_route_subscriber] the interface name and type, the key
    expression, the reader's transient-local flag, topic name, type name,
    keyless flag and QoS. *)
Variable create_route_publisher :
  string -> string -> string -> string -> bool -> Qos -> string -> bool -> Result Route.
Variable create_route_subscriber :
  string -> string -> string -> bool -> string -> string -> bool -> Qos -> Result Route.

(** [RoutesMgr::update_route_publisher]: the state after the call and its
    result ([&mut self]; on [Err] nothing was changed). *)
Definition update_route_publisher (rm : RoutesMgr) (node : string) (iface : TopicPub.t)
  : RoutesMgr * Result unit :=
  let name := TopicPub.name iface in
  match routes_publishers rm !! name with
  | Some route =>
      (with_routes_publishers rm (<[name := add_local_node route node]> (routes_publishers rm)),
       Ok tt)
  | None =>
      match writers (discovered_entities rm) !! TopicPub.writer iface with
      | None => (rm, Err "Failed to get DDS info for Writer. Already deleted ?")
      | Some entity =>
          let reader_qos := adapt_writer_qos_for_reader (qos entity) in
          let ke := name_as_keyexpr name in
          let block := reliable_routes_blocking (config rm)
                       && is_writer_reliable (reliability reader_qos) in
          match create_route_publisher name (TopicPub.typ iface) (topic_name entity)
                  (type_name entity) (keyless entity) reader_qos ke block with
          | Err e => (rm, Err e)
          | Ok route =>
              let route := add_local_node route node in
              (mkRoutesMgr (config rm) (discovered_entities rm)
                 (<[name := route]> (routes_publishers rm)) (routes_subscribers rm)
                 (<[ke_join KE_PREFIX_ROUTE_PUBLISHER (name_as_keyexpr name) := PublisherRoute name]>
                    (routes_admin_space rm)),
               Ok tt)
          end
      end
  end.

(** [RoutesMgr::update_route_subscriber] *)
Definition update_route_subscriber (rm : RoutesMgr) (node : string) (iface : TopicSub.t)
  : RoutesMgr * Result unit :=
  let name := TopicSub.name iface in
  match routes_subscribers rm !! name with
  | Some route =>
      (with_routes_subscribers rm (<[name := add_local_node route node]> (routes_subscribers rm)),
       Ok tt)
  | None =>
      match readers (discovered_entities rm) !! TopicSub.reader iface with
      | None => (rm, Err "Failed to get DDS info for Reader. Already deleted ?")
      | Some entity =>
          let ke := name_as_keyexpr name in
          match create_route_subscriber name (TopicSub.typ iface) ke (is_transient_local (qos entity))
                  (topic_name entity) (type_name entity) (keyless entity) (qos entity) with
          | Err e => (rm, Err e)
          | Ok route =>
              let route := add_local_node route node in
              (mkRoutesMgr (config rm) (discovered_entities rm)
                 (routes_publishers rm) (<[name := route]> (routes_subscribers rm))
                 (<[ke_join KE_PREFIX_ROUTE_SUBSCRIBER (name_as_keyexpr name) := SubscriberRoute name]>
                    (routes_admin_space rm)),
               Ok tt)
          end
      end
  end.

(** [RoutesMgr::update]: every arm but the two [Discovered] topic arms only
    logs. *)
Definition update (rm : RoutesMgr) (event : ROS2DiscoveryEvent) : RoutesMgr * Result unit :=
  match event with
  | DiscoveredTopicPub node iface => update_route_publisher rm node iface
  | DiscoveredTopicSub node iface => update_route_subscriber rm node iface
  | _ => (rm, Ok tt)
  end.

(** Successive calls to [update], whatever their results. *)
Fixpoint run_updates (rm : RoutesMgr) (events : list ROS2DiscoveryEvent) : RoutesMgr :=
  match events with
  | [] => rm
  | ev :: evs => run_updates (fst (update rm ev)) evs
  end.

End Routing.

(** Every route held by the manager is in use. *)
Definition routes_in_use (rm : RoutesMgr) : Prop :=
  forall name r, (routes_publishers rm !! name = Some r \/ routes_subscribers rm !! name = Some r) ->
  is_unused r = false.

(** Route constructors that always succeed with an empty route. *)
Definition create_pub_ok (_ _ _ _ : string) (_ : bool) (_ : Qos) (_ : string) (_ : bool)
  : Result Route := Ok (mkRoute ∅ ∅).
Definition create_sub_ok (_ _ _ : string) (_ : bool) (_ _ : string) (_ : bool) (_ : Qos)
  : Result Route := Ok (mkRoute ∅ ∅).

(** The route reference-counting scenario: nodes "/a" and "/b" both
    publish "foo" through writer 11, then both are undiscovered. *)
Definition foo_writer_entity : DdsEntity :=
  mkDdsEntity 11%N 1%N "rt/foo" "pkg::dds_::Foo_" true Qos_default.
Definition registry_foo : DiscoveredEntities :=
  add_writer DiscoveredEntities_default foo_writer_entity.
Definition foo_iface : TopicPub.t := TopicPub.mk "foo" "pkg/Foo" 11%N.
Definition refcount_events : list ROS2DiscoveryEvent :=
  [DiscoveredTopicPub "/a" foo_iface; DiscoveredTopicPub "/b" foo_iface;
   UndiscoveredTopicPub "/a" foo_iface; UndiscoveredTopicPub "/b" foo_iface].

Definition with_allowance (rm : RoutesMgr) (a : option Allowance) : RoutesMgr :=
  with_config rm (mkConfig a (reliable_routes_blocking (config rm))).

(** The allow-policy scenario: the registry knows writer 11 and the
    manager is configured with [allow.publishers = "^foo/.*$"]. *)
Definition rm_allow_foo : RoutesMgr :=
  RoutesMgr_create (mkConfig (Some allow_foo_publishers) true) registry_foo.
Definition bar_baz_iface : TopicPub.t := TopicPub.mk "bar/baz" "pkg/Foo" 11%N.

(* ------------------------------------------------------------------ *)
(** ** QoS digest for key expressions *)

(** Decimal formatting of integers ([write!("{}")]). *)
Definition digit_char (d : N) : Ascii.ascii := Ascii.ascii_of_N (48 + d).

Fixpoint fmt_N_aux (fuel : nat) (n : N) (acc : string) : string :=
  match fuel with
  | O => acc
  | S f =>
      let acc' := String (digit_char (n mod 10)) acc in
      if (n / 10 =? 0)%N then acc' else fmt_N_aux f (n / 10) acc'
  end.

(** Enough fuel for every 64-bit value. *)
Definition fmt_N (n : N) : string := fmt_N_aux 20 n EmptyString.

Definition fmt_Z (z : Z) : string :=
  if (z <? 0)%Z then String "-" (fmt_N (Z.to_N (- z))) else fmt_N (Z.to_N z).

Definition is_digit (c : Ascii.ascii) : bool :=
  let k := Ascii.N_of_ascii c in (48 <=? k)%N && (k <=? 57)%N.

Definition digit_val (c : Ascii.ascii) : option N :=
  if is_digit c then Some (Ascii.N_of_ascii c - 48)%N else None.

Fixpoint parse_digits_aux (s : string) (acc : N) : option N :=
  match s with
  | EmptyString => Some acc
  | String c r => d ← digit_val c; parse_digits_aux r (acc * 10 + d)%N
  end.

(** A non-empty run of ASCII digits. *)
Definition parse_digits (s : string) : option N :=
  match s with EmptyString => None | _ => parse_digits_aux s 0 end.

(** [str::parse::<u32>]: an optional '+', then digits, below 2^32. *)
Definition parse_u32 (s : string) : option Z :=
  let digits := match s with
                | String c r => if Ascii.eqb c "+"%char then r else s
                | EmptyString => s
                end in
  n ← parse_digits digits;
  if (n <? 2 ^ 32)%N then Some (Z.of_N n) else None.

(** [str::parse::<i32>]: an optional '+' or '-', then digits, within
    [-2^31, 2^31). *)
Definition parse_i32 (s : string) : option Z :=
  match s with
  | String c r =>
      if Ascii.eqb c "-"%char then
        n ← parse_digits r; if (n <=? 2 ^ 31)%N then Some (- Z.of_N n)%Z else None
      else
        n ← parse_digits (if Ascii.eqb c "+"%char then r else s);
        if (n <? 2 ^ 31)%N then Some (Z.of_N n) else None
  | EmptyString => None
  end.

(** [str::split(c)], collected. *)
Fixpoint split_char (c : Ascii.ascii) (s : string) : list string :=
  match s with
  | EmptyString => [EmptyString]
  | String d r =>
      if Ascii.eqb d c then EmptyString :: split_char c r
      else match split_char c r with
           | [] => [String d EmptyString]
           | x :: xs => String d x :: xs
           end
  end.

(** [str::split_once(c)] *)
Fixpoint split_once (c : Ascii.ascii) (s : string) : option (string * string) :=
  match s with
  | EmptyString => None
  | String d r =>
      if Ascii.eqb d c then Some (EmptyString, r)
      else '(a, b) ← split_once c r; Some (String d a, b)
  end.

Fixpoint has_char (c : Ascii.ascii) (s : string) : bool :=
  match s with
  | EmptyString => false
  | String d r => Ascii.eqb d c || has_char c r
  end.

(** [qos_to_key_expr] *)
Definition qos_to_key_expr (keyless : bool) (qos : Qos) : string :=
  String.append (if keyless then EmptyString else "K")
  (String.append ":"
  (String.append (match reliability qos with
                  | Some r => fmt_Z (ReliabilityKind_as_isize (rel_kind r))
                  | None => EmptyString
                  end)
  (String.append ":"
  (String.append (match durability qos with
                  | Some d => fmt_Z (DurabilityKind_as_isize (dur_kind d))
                  | None => EmptyString
                  end)
  (String.append ":"
  (match history qos with
   | Some h => String.append (fmt_Z (HistoryKind_as_isize (hist_kind h)))
                 (String.append "," (fmt_Z (depth h)))
   | None => EmptyString
   end)))))).

(** Sequencing of steps that may return an [Err] ([?]) or panic ([None]). *)
Definition res_bind {A B} (x : option (Result A)) (k : A -> option (Result B)) : option (Result B) :=
  match x with
  | None => None
  | Some (Err e) => Some (Err e)
  | Some (Ok a) => k a
  end.

(** [key_expr_to_qos]: [None] when [From<&u32>] panics on an unknown
    discriminant. *)
Definition key_expr_to_qos (ke : string) : option (Result (bool * Qos)) :=
  match split_char ":"%char ke with
  | [e0; e1; e2; e3] =>
      let keyless := String.eqb e0 EmptyString in
      res_bind
        (if String.eqb e1 EmptyString then Some (Ok None) else
         match parse_u32 e1 with
         | Some i => (fun k => Ok (Some (mkReliability k DDS_100MS_DURATION)))
                       <$> ReliabilityKind_from i
         | None => Some (Err "failed to parse Reliability in 2nd element")
         end) (fun rel =>
      res_bind
        (if String.eqb e2 EmptyString then Some (Ok None) else
         match parse_u32 e2 with
         | Some i => (fun k => Ok (Some (mkDurability k))) <$> DurabilityKind_from i
         | None => Some (Err "failed to parse Durability in 3d element")
         end) (fun dur =>
      res_bind
        (if String.eqb e3 EmptyString then Some (Ok None) else
         match (fun '(s1, s2) => (parse_u32 s1, parse_i32 s2)) <$> split_once ","%char e3 with
         | Some (Some k, Some d) => (fun hk => Ok (Some (mkHistory hk d))) <$> HistoryKind_from k
         | _ => Some (Err "failed to parse History in 4th element")
         end) (fun hist =>
      Some (Ok (keyless, mkQos rel dur hist None)))))
  | _ => Some (Err "unexpected QoS expression - 4 elements between : were expected")
  end.

Fixpoint all_digits (s : string) : bool :=
  match s with
  | EmptyString => true
  | String c r => is_digit c && all_digits r
  end.

(* ------------------------------------------------------------------ *)
(** ** Publication cache of a publisher route *)

Definition usize_MAX : Z := 2 ^ 64 - 1.

(** [x as usize] for a signed 32-bit [x]: sign extension, then wrap. *)
Definition i32_as_usize (x : Z) : Z := x mod 2 ^ 64.

(** [i32::checked_mul] *)
Definition i32_checked_mul (a b : Z) : option Z :=
  let m := (a * b)%Z in
  if (- 2 ^ 31 <=? m)%Z && (m <? 2 ^ 31)%Z then Some m else None.

(** The history of the publication cache declared by
    [RoutePublisher::create] for [reader_qos] ([None]: the QoS is not
    transient-local and no cache is declared).  [ds_default] is the
    library's [DurabilityService::default()]. *)
Definition publication_cache_history (ds_default : DurabilityService) (keyless : bool)
    (reader_qos : Qos) : option Z :=
  if is_transient_local reader_qos then
    let history_qos := get_history_or_default reader_qos in
    let durability_service_qos := get_durability_service_or_default ds_default reader_qos in
    Some (match hist_kind history_qos with
          | KEEP_LAST =>
              let n := depth history_qos in
              if keyless then i32_as_usize n
              else if (max_instances durability_service_qos =? DDS_LENGTH_UNLIMITED)%Z then usize_MAX
              else if (0 <? max_instances durability_service_qos)%Z then
                match i32_checked_mul n (max_instances durability_service_qos) with
                | Some m => i32_as_usize m
                | None => usize_MAX
                end
              else i32_as_usize n
          | KEEP_ALL => usize_MAX
          end)
  else None.

(** The cache history of the route [RoutesMgr::update_route_publisher]
    creates for writer [entity]: [RoutePublisher::create] receives
    [adapt_writer_qos_for_reader(&entity.qos)]. *)
Definition route_cache_history (ds_default : DurabilityService) (entity : DdsEntity) : option Z :=
  publication_cache_history ds_default (keyless entity) (adapt_writer_qos_for_reader (qos entity)).

(** The cache history as the spec describes it: the same computation on
    the writer's own QoS, its durability service included. *)
Definition spec_route_cache_history (ds_default : DurabilityService) (entity : DdsEntity) : option Z :=
  publication_cache_history ds_default (keyless entity) (qos entity).

(** A transient-local writer with KEEP_LAST 5 and a durability service
    allowing [mi] instances, on a keyed and on a keyless topic. *)
Definition tl_writer_qos (mi : Z) : Qos :=
  mkQos None (Some (mkDurability TRANSIENT_LOCAL)) (Some (mkHistory KEEP_LAST 5))
    (Some (mkDurabilityService 0 KEEP_LAST 5 DDS_LENGTH_UNLIMITED mi DDS_LENGTH_UNLIMITED)).
Definition keyed_tl_writer (mi : Z) : DdsEntity :=
  mkDdsEntity 21%N 2%N "rt/bar" "pkg::dds_::Bar_" false (tl_writer_qos mi).
Definition keyless_tl_writer : DdsEntity :=
  mkDdsEntity 22%N 2%N "rt/baz" "pkg::dds_::Baz_" true (tl_writer_qos 10).

(* ------------------------------------------------------------------ *)
(** ** [NodeInfo::namespace] and [NodeInfo::name] *)

(** [NodeInfo::namespace]: [None] is a panic ([node_name_idx - 1]
    underflows at 0, or the slice is off a char boundary). *)
Definition NodeInfo_namespace (n : NodeInfo.t) : option string :=
  if (NodeInfo.node_name_idx n =? 1)%nat then Some "/"
  else match NodeInfo.node_name_idx n with
       | O => None
       | S k => slice_to (NodeInfo.fullname n) k
       end.

(** [NodeInfo::name] *)
Definition NodeInfo_name (n : NodeInfo.t) : option string :=
  slice_from (NodeInfo.fullname n) (NodeInfo.node_name_idx n).

(** The first byte of [s] is a UTF-8 continuation byte (never the case
    for a Rust [String]). *)
Definition starts_with_continuation_byte (s : string) : bool :=
  match s with String c _ => is_continuation_byte c | EmptyString => false end.

(* ------------------------------------------------------------------ *)
(** ** The other checks of [Allowance] *)

(** [Allowance::is_subscriber_allowed] *)
Definition is_subscriber_allowed (a : Allowance) (name : string) : bool :=
  match a with
  | Allow r => default false ((fun re => is_match re name) <$> subscribers r)
  | Deny r => default true ((fun re => negb (is_match re name)) <$> subscribers r)
  end.

(** [Allowance::is_service_srv_allowed] *)
Definition is_service_srv_allowed (a : Allowance) (name : string) : bool :=
  match a with
  | Allow r => default false ((fun re => is_match re name) <$> service_servers r)
  | Deny r => default true ((fun re => negb (is_match re name)) <$> service_servers r)
  end.

(** [Allowance::is_service_cli_allowed] *)
Definition is_service_cli_allowed (a : Allowance) (name : string) : bool :=
  match a with
  | Allow r => default false ((fun re => is_match re name) <$> service_clients r)
  | Deny r => default true ((fun re => negb (is_match re name)) <$> service_clients r)
  end.

(** [Allowance::is_action_srv_allowed] *)
Definition is_action_srv_allowed (a : Allowance) (name : string) : bool :=
  match a with
  | Allow r => default false ((fun re => is_match re name) <$> action_servers r)
  | Deny r => default true ((fun re => negb (is_match re name)) <$> action_servers r)
  end.

(** [Allowance::is_action_cli_allowed] *)
Definition is_action_cli_allowed (a : Allowance) (name : string) : bool :=
  match a with
  | Allow r => default false ((fun re => is_match re name) <$> action_clients r)
  | Deny r => default true ((fun re => negb (is_match re name)) <$> action_clients r)
  end.

(** The six checks of [Allowance], each with the [ROS2InterfacesRegex]
    field it reads. *)
Definition allowance_checks
  : list ((Allowance -> string -> bool) * (ROS2InterfacesRegex -> option Regex)) :=
  [(is_publisher_allowed, publishers); (is_subscriber_allowed, subscribers);
   (is_service_srv_allowed, service_servers); (is_service_cli_allowed, service_clients);
   (is_action_srv_allowed, action_servers); (is_action_cli_allowed, action_clients)].

(* ------------------------------------------------------------------ *)
(** ** QoS adaptation for a route's DDS writer *)

(** [is_reader_reliable] *)
Definition is_reader_reliable (r : option Reliability) : bool :=
  match r with
  | None => false
  | Some r => match rel_kind r with RELIABLE => true | BEST_EFFORT => false end
  end.

Definition i64_MIN : Z := - 2 ^ 63.
Definition i64_MAX : Z := 2 ^ 63 - 1.

(** [i64::saturating_add] *)
Definition i64_saturating_add (a b : Z) : Z := Z.max i64_MIN (Z.min i64_MAX (a + b)).

(** [adapt_reader_qos_for_writer] (on the policies represented), over the
    library's [Reliability::default()] value [rel_default]. *)
Definition adapt_reader_qos_for_writer (rel_default : Reliability) (qos : Qos) : Qos :=
  let durability_service :=
    if is_transient_local qos then
      let history := match history qos with None => History_default | Some h => h end in
      Some (mkDurabilityService (60 * DDS_1S_DURATION) (hist_kind history) (depth history)
              DDS_LENGTH_UNLIMITED DDS_LENGTH_UNLIMITED DDS_LENGTH_UNLIMITED)
    else durability_service qos in
  let reliability :=
    match reliability qos with
    | Some r => mkReliability (rel_kind r) (i64_saturating_add (max_blocking_time r) 1)
    | None => mkReliability (rel_kind rel_default)
                (i64_saturating_add (max_blocking_time rel_default) 1)
    end in
  mkQos (Some reliability) (durability qos) (history qos) durability_service.

(* ------------------------------------------------------------------ *)
(** ** Reference sets of the routes *)

(** [str::contains] with a [&str] pattern. *)
Fixpoint str_contains (s pat : string) : bool :=
  String.prefix pat s || match s with EmptyString => false | String _ r => str_contains r pat end.

(** The reference sets of a [RoutePublisher]: the admin key expressions
    of the remote routed readers and the Gids of the local routed writers. *)
Record RoutePublisherRefs := mkRoutePublisherRefs {
  remote_routed_readers : gset string;
  local_routed_writers : gset Gid }.

(** [RoutePublisher::add_remote_routed_reader] *)
Definition add_remote_routed_reader (rp : RoutePublisherRefs) (admin_ke : string) : RoutePublisherRefs :=
  mkRoutePublisherRefs ({[admin_ke]} ∪ remote_routed_readers rp) (local_routed_writers rp).

(** [RoutePublisher::remove_remote_routed_reader] *)
Definition remove_remote_routed_reader (rp : RoutePublisherRefs) (admin_ke : string) : RoutePublisherRefs :=
  mkRoutePublisherRefs (remote_routed_readers rp ∖ {[admin_ke]}) (local_routed_writers rp).

(** [RoutePublisher::remove_remote_routed_readers_containing] *)
Definition remove_remote_routed_readers_containing (rp : RoutePublisherRefs) (sub_ke : string)
  : RoutePublisherRefs :=
  mkRoutePublisherRefs (filter (fun s => str_contains s sub_ke = false) (remote_routed_readers rp))
    (local_routed_writers rp).

(** [RoutePublisher::has_remote_routed_reader] *)
Definition has_remote_routed_reader (rp : RoutePublisherRefs) : bool :=
  negb (bool_decide (remote_routed_readers rp = ∅)).

(** [RoutePublisher::is_routing_remote_reader] *)
Definition is_routing_remote_reader (rp : RoutePublisherRefs) (entity_key : string) : bool :=
  existsb (fun s => str_contains s entity_key) (elements (remote_routed_readers rp)).

(** [RouteSubscriber::add_remote_route] *)
Definition add_remote_route (r : Route) (admin_ke : string) : Route :=
  mkRoute (local_nodes r) ({[admin_ke]} ∪ remote_routes r).

(** [RouteSubscriber::remove_remote_route] *)
Definition remove_remote_route (r : Route) (admin_ke : string) : Route :=
  mkRoute (local_nodes r) (remote_routes r ∖ {[admin_ke]}).

(** [RouteSubscriber::remove_remote_routes] *)
Definition remove_remote_routes (r : Route) (sub_ke : string) : Route :=
  mkRoute (local_nodes r) (filter (fun s => str_contains s sub_ke = false) (remote_routes r)).

(* ------------------------------------------------------------------ *)
(** ** Removals from the registry *)

(** [DiscoveredEntities::remove_writer] *)
Definition DiscoveredEntities_remove_writer (de : DiscoveredEntities) (g : Gid) : DiscoveredEntities :=
  match writers de !! g with
  | Some writer =>
      mkDiscoveredEntities (delete g (writers de)) (readers de) (ros_participant_info de)
        (nodes_info de)
        (delete (ke_admin_writer (participant_key writer) (key writer) (topic_name writer))
           (admin_space de))
  | None => de
  end.

(** [DiscoveredEntities::remove_reader] *)
Definition DiscoveredEntities_remove_reader (de : DiscoveredEntities) (g : Gid) : DiscoveredEntities :=
  match readers de !! g with
  | Some reader =>
      mkDiscoveredEntities (writers de) (delete g (readers de)) (ros_participant_info de)
        (nodes_info de)
        (delete (ke_admin_reader (participant_key reader) (key reader) (topic_name reader))
           (admin_space de))
  | None => de
  end.

(** One step of the loop of [remove_participant] over the participant's
    nodes: the removal of a node's admin entry ([&name[1..]] may panic). *)
Definition remove_node_admin (g : Gid) (admin : gmap AdminKey EntityRef) (name : string)
  : option (gmap AdminKey EntityRef) :=
  fullname ← slice_from name 1; Some (delete (ke_admin_node g fullname) admin).

(** [DiscoveredEntities::remove_participant], on the tables represented
    (the [participants] table is left out).  [None] is a panic. *)
Definition remove_participant (de : DiscoveredEntities) (g : Gid) : option DiscoveredEntities :=
  admin ← match nodes_info de !! g with
          | Some nodes => fold_option (remove_node_admin g) (admin_space de) (map fst (map_to_list nodes))
          | None => Some (admin_space de)
          end;
  Some (mkDiscoveredEntities (writers de) (readers de) (ros_participant_info de)
          (delete g (nodes_info de)) (delete (ke_admin_participant g) admin)).

(** A registry holding participant 1 with node "/n" and their admin entries. *)
Definition registry_p1_n : DiscoveredEntities :=
  mkDiscoveredEntities ∅ ∅ ∅ {[1%N := {["/n" := NodeInfo.create "/" "n" 1%N]}]}
    {[ke_admin_node 1%N "n" := Node 1%N "/n"; ke_admin_participant 1%N := Participant 1%N]}.

(** A transient-local, reliable reader QoS with KEEP_LAST 5. *)
Definition tl_reliable_reader_qos : Qos :=
  mkQos (Some (mkReliability RELIABLE 5)) (Some (mkDurability TRANSIENT_LOCAL))
    (Some (mkHistory KEEP_LAST 5)) None.

(** [tl_reliable_reader_qos] as [key_expr_to_qos] parses it: the parser
    sets [max_blocking_time] to [DDS_100MS_DURATION]. *)
Definition tl_reliable_reader_qos' : Qos :=
  mkQos (Some (mkReliability RELIABLE DDS_100MS_DURATION)) (Some (mkDurability TRANSIENT_LOCAL))
    (Some (mkHistory KEEP_LAST 5)) None.

(* ================================================================== *)
(** * Properties *)
(* ================================================================== *)

(* ------------------------------------------------------------------ *)
(** ** Facts about the typed slot update *)

Section TypedSlotFacts.
Context {I : Type}.
Variable i_typ : I -> string.
Variable with_typ : I -> string -> I.
Variable complete : I -> bool.
Variable slot : I -> Gid.
Variable with_slot : I -> Gid -> I.
Variable create : string -> string -> I.
Variable other : I -> Gid.
Hypothesis slot_with_slot : forall v g, slot (with_slot v g) = g.
Hypothesis slot_with_typ : forall v t, slot (with_typ v t) = slot v.
Hypothesis other_with_slot : forall v g, other (with_slot v g) = other v.
Hypothesis other_with_typ : forall v t, other (with_typ v t) = other v.

Lemma update_typed_slot_result m name typ g m' r :
  update_typed_slot i_typ with_typ complete slot with_slot create m name typ g = (m', r) ->
  exists v', m' = <[name := v']> m /\ slot v' = g
    /\ other v' = match m !! name with Some v => other v | None => other (create name typ) end
    /\ (forall s, r = Some s -> complete s = true /\ other s = other v'
          /\ (slot s = g \/ exists v, m !! name = Some v /\ slot s = slot v)).
Proof.
  unfold update_typed_slot. destruct (m !! name) as [v|] eqn:Hm.
  - destruct (String.eqb (i_typ v) typ) eqn:Ht.
    + destruct (gid_eqb (slot v) g) eqn:Hg; intros H; injection H as <- <-.
      * exists v. apply N.eqb_eq in Hg. split; [reflexivity|split; [auto|split; [auto|]]]. intros ? [=].
      * exists (with_slot v g). rewrite slot_with_slot, other_with_slot.
        split; [reflexivity|split; [auto|split; [auto|]]]. intros s Hs.
        destruct (complete (with_slot v g)) eqn:Hc; [|discriminate].
        injection Hs as <-. rewrite slot_with_slot, other_with_slot. auto.
    + destruct (gid_eqb (slot (with_typ v typ)) g) eqn:Hg; intros H; injection H as <- <-.
      * exists (with_typ v typ). apply N.eqb_eq in Hg.
        rewrite other_with_typ. split; [reflexivity|split; [auto|split; [auto|]]]. intros s Hs.
        destruct (complete (with_typ v typ)) eqn:Hc; [|discriminate].
        injection Hs as <-. rewrite other_with_typ. auto.
      * exists (with_slot (with_typ v typ) g).
        rewrite slot_with_slot, other_with_slot, other_with_typ.
        split; [reflexivity|split; [auto|split; [auto|]]]. intros s Hs.
        destruct (complete (with_slot (with_typ v typ) g)) eqn:Hc.
        -- injection Hs as <-. rewrite slot_with_slot, other_with_slot, other_with_typ. auto.
        -- destruct (complete (with_typ v typ)) eqn:Hc'; [|discriminate].
           injection Hs as <-. rewrite other_with_typ, slot_with_typ.
           repeat split; auto. right. eauto.
  - intros H. injection H as <- <-. exists (with_slot (create name typ) g).
    rewrite slot_with_slot, other_with_slot. split; [reflexivity|split; [auto|split; [auto|]]]. intros ? [=].
Qed.
End TypedSlotFacts.

(** Every real Gid held by a service server is one that some operation of
    the trace recorded. *)
Definition srv_slots_ok (pre : list SrvOp) (v : ServiceSrv.t) : Prop :=
  (ss_req_reader v = NOT_DISCOVERED \/ exists t, SrvReqReader t (ss_req_reader v) ∈ pre)
  /\ (ss_rep_writer v = NOT_DISCOVERED \/ exists t, SrvRepWriter t (ss_rep_writer v) ∈ pre).

Definition srv_inv (name : string) (pre : list SrvOp) (n : NodeInfo.t) : Prop :=
  forall v, NodeInfo.service_srv n !! name = Some v -> srv_slots_ok pre v.

Lemma srv_slots_ok_mono pre op v :
  srv_slots_ok pre v -> srv_slots_ok (pre ++ [op]) v.
Proof.
  intros [[H1|[t H1]] [H2|[t' H2]]]; split;
    try (left; assumption); right; eexists; apply elem_of_app; left; eassumption.
Qed.

Lemma apply_srv_op_step name pre n op n' r :
  apply_srv_op name n op = (n', r) -> srv_inv name pre n ->
  srv_inv name (pre ++ [op]) n' /\ NodeInfo.fullname n' = NodeInfo.fullname n
  /\ (forall ev, r = Some ev -> exists s, ev = DiscoveredServiceSrv (NodeInfo.fullname n) s
        /\ ServiceSrv.is_complete s = true /\ srv_slots_ok (pre ++ [op]) s).
Proof.
  intros Hstep Hinv.
  assert (Hin : op ∈ pre ++ [op]) by (apply elem_of_app; right; constructor).
  destruct op as [t g|t g]; simpl in Hstep;
    [unfold update_service_srv_req_reader in Hstep | unfold update_service_srv_rep_writer in Hstep];
    match type of Hstep with
    | (let '(_, _) := ?u in _) = _ => destruct u as [m' r0] eqn:E
    end;
    injection Hstep as <- <-;
    [ eapply (update_typed_slot_result _ _ _ _ _ _ ss_rep_writer) in E
    | eapply (update_typed_slot_result _ _ _ _ _ _ ss_req_reader) in E ];
    try reflexivity;
    destruct E as (v' & -> & Hslot & Hother & Hev);
    (split; [| split; [reflexivity |]]).
  - intros v Hv. simpl in Hv. destruct (decide (name = name)) as [_|]; [|congruence].
    rewrite lookup_insert_eq in Hv. injection Hv as <-. split.
    + right. exists t. rewrite Hslot. exact Hin.
    + destruct (NodeInfo.service_srv n !! name) as [v0|] eqn:H0.
      * rewrite Hother. apply srv_slots_ok_mono. apply (Hinv v0 H0).
      * left. exact Hother.
  - intros ev Hr. destruct r0 as [s|]; [|discriminate]. injection Hr as <-.
    destruct (Hev s eq_refl) as (Hc & Ho & [Hs|(v0 & H0 & Hs)]);
      exists s; (split; [reflexivity | split; [exact Hc |]]).
    + split; [right; exists t; rewrite Hs; exact Hin|].
      rewrite Ho, Hother. destruct (NodeInfo.service_srv n !! name) as [v0|] eqn:H0;
        [apply srv_slots_ok_mono, (Hinv v0 H0) | left; reflexivity].
    + destruct (Hinv v0 H0) as [Hr1 Hr2]. apply (srv_slots_ok_mono pre (SrvReqReader t g)).
      rewrite H0 in Hother. split; [rewrite Hs; exact Hr1 | rewrite Ho, Hother; exact Hr2].
  - intros v Hv. simpl in Hv. destruct (decide (name = name)) as [_|]; [|congruence].
    rewrite lookup_insert_eq in Hv. injection Hv as <-. split.
    + destruct (NodeInfo.service_srv n !! name) as [v0|] eqn:H0.
      * rewrite Hother. apply srv_slots_ok_mono. apply (Hinv v0 H0).
      * left. exact Hother.
    + right. exists t. rewrite Hslot. exact Hin.
  - intros ev Hr. destruct r0 as [s|]; [|discriminate]. injection Hr as <-.
    destruct (Hev s eq_refl) as (Hc & Ho & [Hs|(v0 & H0 & Hs)]);
      exists s; (split; [reflexivity | split; [exact Hc |]]).
    + split; [|right; exists t; rewrite Hs; exact Hin].
      rewrite Ho, Hother. destruct (NodeInfo.service_srv n !! name) as [v0|] eqn:H0;
        [apply srv_slots_ok_mono, (Hinv v0 H0) | left; reflexivity].
    + destruct (Hinv v0 H0) as [Hr1 Hr2]. apply (srv_slots_ok_mono pre (SrvRepWriter t g)).
      rewrite H0 in Hother. split; [rewrite Ho, Hother; exact Hr1 | rewrite Hs; exact Hr2].
Qed.

Lemma run_srv_ops_inv name ops : forall n pre,
  srv_inv name pre n ->
  srv_inv name (pre ++ ops) (fst (run_srv_ops name n ops))
  /\ forall k ev, snd (run_srv_ops name n ops) !! k = Some (Some ev) ->
       exists s, ev = DiscoveredServiceSrv (NodeInfo.fullname n) s
         /\ ServiceSrv.is_complete s = true /\ srv_slots_ok (pre ++ take (S k) ops) s.
Proof.
  induction ops as [|op ops IH]; intros n pre Hinv; simpl.
  - rewrite app_nil_r. split; [exact Hinv|]. intros k ev Hk. rewrite lookup_nil in Hk. discriminate.
  - destruct (apply_srv_op name n op) as [n1 r] eqn:E1.
    destruct (apply_srv_op_step name pre n op n1 r E1 Hinv) as (Hinv1 & Hfn & Hev).
    destruct (IH n1 (pre ++ [op]) Hinv1) as [Hinv2 Hrest].
    destruct (run_srv_ops name n1 ops) as [n2 rs] eqn:E2. simpl in *.
    split.
    + rewrite <- app_assoc in Hinv2. exact Hinv2.
    + intros [|k] ev Hk; simpl in Hk.
      * injection Hk as ->. destruct (Hev ev eq_refl) as (s & -> & Hc & Hok).
        exists s. auto.
      * destruct (Hrest k ev Hk) as (s & -> & Hc & Hok). exists s.
        rewrite Hfn, <- app_assoc in *. auto.
Qed.

Lemma srv_slots_ok_complete pre s :
  srv_slots_ok pre s -> ServiceSrv.is_complete s = true ->
  (exists t g, SrvReqReader t g ∈ pre /\ g <> NOT_DISCOVERED)
  /\ (exists t g, SrvRepWriter t g ∈ pre /\ g <> NOT_DISCOVERED).
Proof.
  unfold ServiceSrv.is_complete, ServiceSrvEntities.is_complete, gid_eqb.
  intros [[H1|[t H1]] [H2|[t' H2]]] Hc; apply andb_prop in Hc as [Hc1 Hc2];
    apply negb_true_iff, N.eqb_neq in Hc1, Hc2; unfold ss_req_reader, ss_rep_writer in *;
    first [ contradiction | split; do 2 eexists; split; eassumption ].
Qed.

(** C6: starting from a node without service server [name], an
    [update_service_srv_req_reader] / [update_service_srv_rep_writer] call
    returns [DiscoveredServiceSrv] only with a complete server, and only
    once both a real request-reader Gid and a real reply-writer Gid have
    been recorded by the calls so far; while only one side has been
    recorded, no call returns an event and the server is incomplete. *)
Theorem service_srv_discovered_needs_both_sides (name : string) (n : NodeInfo.t)
    (ops : list SrvOp) (Hfresh : NodeInfo.service_srv n !! name = None) :
  (forall k ev, snd (run_srv_ops name n ops) !! k = Some (Some ev) ->
     exists s, ev = DiscoveredServiceSrv (NodeInfo.fullname n) s
       /\ ServiceSrv.is_complete s = true
       /\ (exists t g, SrvReqReader t g ∈ take (S k) ops /\ g <> NOT_DISCOVERED)
       /\ (exists t g, SrvRepWriter t g ∈ take (S k) ops /\ g <> NOT_DISCOVERED))
  /\ ((Forall (fun op => is_req_op op = true) ops \/ Forall (fun op => is_rep_op op = true) ops) ->
      Forall (fun r => r = None) (snd (run_srv_ops name n ops))
      /\ forall v, NodeInfo.service_srv (fst (run_srv_ops name n ops)) !! name = Some v ->
             ServiceSrv.is_complete v = false).
Proof.
  assert (Hinv0 : srv_inv name [] n) by (intros v Hv; congruence).
  destruct (run_srv_ops_inv name ops n [] Hinv0) as [Hinv Hev]. simpl in Hev.
  assert (Hfirst : forall k ev, snd (run_srv_ops name n ops) !! k = Some (Some ev) ->
     exists s, ev = DiscoveredServiceSrv (NodeInfo.fullname n) s
       /\ ServiceSrv.is_complete s = true
       /\ (exists t g, SrvReqReader t g ∈ take (S k) ops /\ g <> NOT_DISCOVERED)
       /\ (exists t g, SrvRepWriter t g ∈ take (S k) ops /\ g <> NOT_DISCOVERED)).
  { intros k ev Hk. destruct (Hev k ev Hk) as (s & -> & Hc & Hok).
    exists s. split; [reflexivity|]. split; [exact Hc|].
    exact (srv_slots_ok_complete _ s Hok Hc). }
  split; [exact Hfirst|].
  intros Hone.
  assert (Hnot : forall (p : list SrvOp), (exists t g, SrvReqReader t g ∈ p /\ g <> NOT_DISCOVERED)
              -> (exists t g, SrvRepWriter t g ∈ p /\ g <> NOT_DISCOVERED) -> p ⊆ ops -> False).
  { intros p (t & g & Hg & _) (t' & g' & Hg' & _) Hsub.
    destruct Hone as [Hall|Hall]; rewrite Forall_forall in Hall;
      [specialize (Hall _ (Hsub _ Hg')) | specialize (Hall _ (Hsub _ Hg))]; discriminate. }
  split.
  - apply Forall_lookup. intros k [ev|] Hk; [|reflexivity]. exfalso.
    destruct (Hfirst k ev Hk) as (s & _ & _ & H1 & H2).
    apply (Hnot _ H1 H2). intros x Hx. apply elem_of_take in Hx as (i & Hi & _).
    apply list_elem_of_lookup. eauto.
  - intros v Hv. destruct (ServiceSrv.is_complete v) eqn:Hc; [|reflexivity]. exfalso.
    rewrite app_nil_l in Hinv.
    destruct (srv_slots_ok_complete _ v (Hinv v Hv) Hc) as [H1 H2].
    apply (Hnot ops H1 H2). reflexivity.
Qed.

Lemma service_srv_discovered_needs_both_sides_witness :
  NodeInfo.service_srv empty_node !! "/svc" = None /\
  Forall (fun r => r = None) (snd (run_srv_ops "/svc" empty_node [SrvReqReader "pkg/Svc" 7%N])).
Proof.
  split; [reflexivity|].
  apply (proj2 (service_srv_discovered_needs_both_sides "/svc" empty_node
                  [SrvReqReader "pkg/Svc" 7%N] eq_refl)).
  left. repeat constructor.
Defined.

(* ------------------------------------------------------------------ *)
(** ** Byte slicing of topic names *)

Lemma slice_to_none (s : string) (i : nat) :
  (String.length s < i)%nat \/ is_char_boundary s i = false -> slice_to s i = None.
Proof.
  unfold slice_to. intros [Hlt|Hb].
  - destruct (Nat.leb_spec i (String.length s)); [lia|reflexivity].
  - rewrite Hb, andb_false_r. reflexivity.
Qed.

Lemma slice_to_some (s : string) (i : nat) :
  (i <= String.length s)%nat -> is_char_boundary s i = true ->
  slice_to s i = Some (String.substring 0 i s).
Proof.
  unfold slice_to. intros Hle Hb. rewrite Hb, andb_true_r.
  destruct (Nat.leb_spec i (String.length s)); [reflexivity|lia].
Qed.

Lemma slice_from_some (s : string) (i : nat) :
  (i <= String.length s)%nat -> is_char_boundary s i = true ->
  slice_from s i = Some (String.substring i (String.length s - i) s).
Proof.
  unfold slice_from. intros Hle Hb. rewrite Hb, andb_true_r.
  destruct (Nat.leb_spec i (String.length s)); [reflexivity|lia].
Qed.

(** C10: [NodeInfo::update_with_reader] and [NodeInfo::update_with_writer]
    panic on every endpoint whose topic name is shorter than 3 bytes, or
    whose byte 3 is not a char boundary, because [topic_name[..3]] is
    evaluated unconditionally; an endpoint whose name does slice at 2 and 3
    but is not under [rt/], [rq/] or [rr/] gets the ignorable result
    (node unchanged, no event). *)
Theorem update_with_endpoint_panics_on_short_topic (n : NodeInfo.t) (e : DdsEntity) :
  ((String.length (topic_name e) < 3)%nat \/ is_char_boundary (topic_name e) 3 = false ->
   update_with_reader n e = None /\ update_with_writer n e = None) /\
  ((3 <= String.length (topic_name e))%nat ->
   is_char_boundary (topic_name e) 3 = true ->
   is_char_boundary (topic_name e) 2 = true ->
   String.substring 0 3 (topic_name e) ∉ ["rt/"; "rq/"; "rr/"] ->
   update_with_reader n e = Some (n, None) /\ update_with_writer n e = Some (n, None)).
Proof.
  split.
  - intros H. unfold update_with_reader, update_with_writer.
    rewrite (slice_to_none _ _ H). split; reflexivity.
  - intros Hlen H3 H2 Hpre. unfold update_with_reader, update_with_writer, dispatch_reader, dispatch_writer.
    assert (Hle2 : (2 <= String.length (topic_name e))%nat) by lia.
    rewrite (slice_to_some _ _ Hlen H3), (slice_from_some _ _ Hle2 H2). simpl.
    destruct (String.eqb_spec (String.substring 0 3 (topic_name e)) "rt/") as [E|_];
      [rewrite E in Hpre; exfalso; apply Hpre; repeat constructor|].
    destruct (String.eqb_spec (String.substring 0 3 (topic_name e)) "rq/") as [E|_];
      [rewrite E in Hpre; exfalso; apply Hpre; repeat constructor|].
    destruct (String.eqb_spec (String.substring 0 3 (topic_name e)) "rr/") as [E|_];
      [rewrite E in Hpre; exfalso; apply Hpre; repeat constructor|].
    split; reflexivity.
Qed.

Lemma update_with_endpoint_panics_on_short_topic_witness :
  update_with_reader empty_node (mkDdsEntity 5%N 1%N "rt" "T" true Qos_default) = None /\
  update_with_writer empty_node (mkDdsEntity 5%N 1%N "rt" "T" true Qos_default) = None /\
  update_with_writer empty_node (mkDdsEntity 5%N 1%N "ab/c" "T" true Qos_default)
    = Some (empty_node, None).
Proof.
  destruct (update_with_endpoint_panics_on_short_topic empty_node
              (mkDdsEntity 5%N 1%N "rt" "T" true Qos_default)) as [Hshort _].
  destruct (update_with_endpoint_panics_on_short_topic empty_node
              (mkDdsEntity 5%N 1%N "ab/c" "T" true Qos_default)) as [_ Hother].
  destruct Hshort as [-> ->]; [left; simpl; lia|].
  split; [reflexivity|split; [reflexivity|]].
  apply Hother; [simpl; lia|reflexivity|reflexivity|].
  simpl. intros Hin. repeat (apply elem_of_cons in Hin as [Hin|Hin]; [discriminate|]).
  apply elem_of_nil in Hin. exact Hin.
Defined.

(* ------------------------------------------------------------------ *)
(** ** Facts about the removals *)



















(** C3 (corrected): [add_writer] only records the endpoint (writers table
    and admin space) and leaves every [NodeInfo] untouched: it does not scan
    the pending queues and produces no event.  In the reverse-order scenario,
    the manifest alone leaves "/n" with [undiscovered_writer = [W1]] and no
    event; after [add_writer W1] the queue still holds W1; the
    [DiscoveredTopicPub] is declared only when a later manifest of P1 is
    processed, and W1 stays in the queue even then. *)
Theorem add_writer_does_not_scan_pending_queues :
  (forall de w,
     nodes_info (add_writer de w) = nodes_info de
     /\ ros_participant_info (add_writer de w) = ros_participant_info de
     /\ readers (add_writer de w) = readers de
     /\ writers (add_writer de w) !! key w = Some w)
  /\ exists de1 de2,
     update_participant_info DiscoveredEntities_default manifest_n_w1 = Some (de1, [])
     /\ (NodeInfo.undiscovered_writer <$> node_n_of de1) = Some [11%N]
     /\ node_n_of (add_writer de1 pub_foo_writer) = node_n_of de1
     /\ update_participant_info (add_writer de1 pub_foo_writer) manifest_n_w1
        = Some (de2, [DiscoveredTopicPub "/n" (TopicPub.mk "foo" "pkg::dds_::Foo_" 11%N)])
     /\ (NodeInfo.undiscovered_writer <$> node_n_of de2) = Some [11%N].
Proof.
  split.
  - intros de w. split; [reflexivity|split; [reflexivity|split; [reflexivity|]]].
    simpl. apply lookup_insert_eq.
  - do 2 eexists. split; [vm_compute; reflexivity|].
    split; [vm_compute; reflexivity|].
    split; [reflexivity|].
    split; vm_compute; reflexivity.
Qed.

(** C3 counterexample: after the manifest and then [add_writer W1], W1 is
    still pending in "/n"'s queue; no scan popped it. *)
Lemma add_writer_leaves_pending_writer_counterexample :
  ((fun de1 => NodeInfo.undiscovered_writer <$> node_n_of (add_writer de1 pub_foo_writer))
     <$> (fst <$> update_participant_info DiscoveredEntities_default manifest_n_w1))
  = Some (Some [11%N]).
Proof. vm_compute. reflexivity. Qed.

(* ------------------------------------------------------------------ *)
(** ** Facts about [update_participant_info] *)

Ltac dispatch_discovered :=
  intros H e ->;
  repeat (case_match; simplify_eq/=); try reflexivity;
  try match goal with H : ?x ≫= _ = _ |- _ => destruct x; simpl in H; [|discriminate] end;
  repeat (case_match; simplify_eq/=); try reflexivity;
  repeat match goal with r : option _ |- _ => destruct r; simplify_eq/=; try reflexivity end.

Lemma dispatch_reader_discovered f1 f2 f3 n p s ty g n' ev :
  dispatch_reader f1 f2 f3 n p s ty g = Some (n', ev) -> events_discovered ev.
Proof.
  unfold dispatch_reader, update_action_cli_status_reader, update_action_cli_feedback_reader,
    update_topic_sub, update_action_srv_send_req_reader, update_action_srv_cancel_req_reader,
    update_action_srv_result_req_reader, update_service_srv_req_reader,
    update_action_cli_send_rep_reader, update_action_cli_cancel_rep_reader,
    update_action_cli_result_rep_reader, update_service_cli_rep_reader,
    action_cli_typed, action_cli_untyped, action_srv_typed, action_srv_untyped, events_discovered.
  dispatch_discovered.
Qed.

Lemma dispatch_writer_discovered f1 f2 f3 n p s ty g n' ev :
  dispatch_writer f1 f2 f3 n p s ty g = Some (n', ev) -> events_discovered ev.
Proof.
  unfold dispatch_writer, update_action_srv_status_writer, update_action_srv_feedback_writer,
    update_topic_pub, update_action_cli_send_req_writer, update_action_cli_cancel_req_writer,
    update_action_cli_result_req_writer, update_service_cli_req_writer,
    update_action_srv_send_rep_writer, update_action_srv_cancel_rep_writer,
    update_action_srv_result_rep_writer, update_service_srv_rep_writer,
    action_cli_typed, action_cli_untyped, action_srv_typed, action_srv_untyped, events_discovered.
  dispatch_discovered.
Qed.

Lemma fold_declare_forall {A B} (P : ROS2DiscoveryEvent -> Prop)
    (f : A -> B -> option (A * list ROS2DiscoveryEvent)) :
  (forall a b a' d, f a b = Some (a', d) -> Forall P d) ->
  forall l a a' d, fold_declare f a l = Some (a', d) -> Forall P d.
Proof.
  intros Hf l. induction l as [|b l IH]; intros a a' d H; simpl in H.
  - injection H as _ <-. constructor.
  - destruct (f a b) as [[a1 d1]|] eqn:E1; [|discriminate]. simpl in H.
    destruct (fold_declare f a1 l) as [[a2 d2]|] eqn:E2; [|discriminate]. simpl in H.
    injection H as _ <-. apply Forall_app. split; [exact (Hf _ _ _ _ E1)|exact (IH _ _ _ E2)].
Qed.

Lemma option_list_discovered (o : option ROS2DiscoveryEvent) :
  events_discovered o -> Forall (fun e => is_discovered_event e = true) (option_list o).
Proof. destruct o as [e|]; intros H; repeat constructor. apply H. reflexivity. Qed.

Lemma update_node_info_discovered node rni rs ws node' d :
  update_node_info node rni rs ws = Some (node', d) ->
  Forall (fun e => is_discovered_event e = true) d.
Proof.
  unfold update_node_info. intros H.
  destruct (fold_declare (update_node_reader rs) node (reader_gid_seq rni)) as [[n1 d1]|] eqn:E1;
    [|discriminate]. simpl in H.
  destruct (fold_declare (update_node_writer ws) n1 (writer_gid_seq rni)) as [[n2 d2]|] eqn:E2;
    [|discriminate]. simpl in H.
  injection H as _ <-. apply Forall_app. split.
  - revert E1. apply fold_declare_forall. intros a b a' d' Hs. unfold update_node_reader in Hs.
    destruct (rs !! b) as [entity|]; [|injection Hs as _ <-; constructor].
    destruct (split_at (topic_name entity) 3) as [[p s]|]; [|discriminate]. simpl in Hs.
    destruct (dispatch_reader _ _ _ _ _ _ _ _) as [[n'' ev]|] eqn:Ed; [|discriminate].
    simpl in Hs. injection Hs as _ <-.
    apply option_list_discovered. exact (dispatch_reader_discovered _ _ _ _ _ _ _ _ _ _ Ed).
  - revert E2. apply fold_declare_forall. intros a b a' d' Hs. unfold update_node_writer in Hs.
    destruct (ws !! b) as [entity|]; [|injection Hs as _ <-; constructor].
    destruct (split_at (topic_name entity) 3) as [[p s]|]; [|discriminate]. simpl in Hs.
    destruct (dispatch_writer _ _ _ _ _ _ _ _) as [[n'' ev]|] eqn:Ed; [|discriminate].
    simpl in Hs. injection Hs as _ <-.
    apply option_list_discovered. exact (dispatch_writer_discovered _ _ _ _ _ _ _ _ _ _ Ed).
Qed.

Lemma substring_full (r : string) : String.substring 0 (String.length r) r = r.
Proof. induction r as [|c r IH]; simpl; [reflexivity|rewrite IH; reflexivity]. Qed.

Lemma slice_from_1_cons (c : Ascii.ascii) (r x : string) :
  slice_from (String c r) 1 = Some x -> x = r.
Proof.
  unfold slice_from. destruct (_ && _); [|discriminate].
  intros [= <-]. simpl. rewrite Nat.sub_0_r. apply substring_full.
Qed.

Lemma retain_fold_keeps_none pgid seq :
  forall l a a' k, fold_option (retain_admin pgid seq) a l = Some a' -> a !! k = None -> a' !! k = None.
Proof.
  induction l as [|name l IH]; intros a a' k H Hk; simpl in H.
  - injection H as <-. exact Hk.
  - destruct (retain_admin pgid seq a name) as [a1|] eqn:E; [|discriminate]. simpl in H.
    apply (IH a1 _ _ H). unfold retain_admin in E.
    destruct (seq !! name); [injection E as <-; exact Hk|].
    destruct (slice_from name 1); [|discriminate]. simpl in E. injection E as <-.
    rewrite lookup_delete_None. right. exact Hk.
Qed.

Lemma retain_fold_removes pgid seq :
  forall l a a', fold_option (retain_admin pgid seq) a l = Some a' ->
  forall name fn, name ∈ l -> seq !! name = None -> slice_from name 1 = Some fn ->
  a' !! ke_admin_node pgid fn = None.
Proof.
  induction l as [|name0 l IH]; intros a a' H name fn Hin Hseq Hfn; simpl in H.
  - apply elem_of_nil in Hin. contradiction.
  - destruct (retain_admin pgid seq a name0) as [a1|] eqn:E; [|discriminate]. simpl in H.
    apply elem_of_cons in Hin as [->|Hin]; [|exact (IH _ _ H _ _ Hin Hseq Hfn)].
    apply (retain_fold_keeps_none _ _ _ _ _ _ H).
    unfold retain_admin in E. rewrite Hseq, Hfn in E. simpl in E. injection E as <-.
    apply lookup_delete_eq.
Qed.

Lemma retain_fold_total pgid seq :
  forall l a, (forall name, name ∈ l -> seq !! name = None -> is_Some (slice_from name 1)) ->
  is_Some (fold_option (retain_admin pgid seq) a l).
Proof.
  induction l as [|name l IH]; intros a Hl; cbn [fold_option]; [eauto|].
  assert (Hl' : forall x, x ∈ l -> seq !! x = None -> is_Some (slice_from x 1))
    by (intros x Hx; apply Hl; apply elem_of_cons; right; exact Hx).
  destruct (retain_admin pgid seq a name) as [a1|] eqn:E; [exact (IH a1 Hl')|].
  exfalso. unfold retain_admin in E. destruct (seq !! name) eqn:Hs; [discriminate|].
  destruct (Hl name ltac:(apply elem_of_cons; left; reflexivity) Hs) as [fn Hfn].
  rewrite Hfn in E. discriminate.
Qed.

Lemma update_nodes_fold pgid rs ws :
  forall l m a m' a' d,
  fold_declare (update_one_node pgid rs ws) (m, a) l = Some ((m', a'), d) ->
  (forall k, m' !! k = None <-> m !! k = None /\ k ∉ l.*1)
  /\ (forall k, (forall name fn, name ∈ l.*1 -> slice_from name 1 = Some fn -> k <> ke_admin_node pgid fn)
                -> a' !! k = a !! k)
  /\ Forall (fun e => is_discovered_event e = true) d.
Proof.
  induction l as [|[name rni] l IH]; intros m a m' a' d H; cbn [fold_declare] in H.
  - injection H as <- <- <-. split; [|split; [reflexivity|constructor]].
    intros k. split; [intros Hk; split; [exact Hk|apply not_elem_of_nil]|intros [Hk _]; exact Hk].
  - destruct (update_one_node pgid rs ws (m, a) (name, rni)) as [[[m1 a1] d1]|] eqn:E1;
      [|discriminate]. cbn [mbind option_bind] in H.
    destruct (fold_declare (update_one_node pgid rs ws) (m1, a1) l) as [[[m2 a2] d2]|] eqn:E2;
      [|discriminate]. cbn [mbind option_bind] in H. injection H as <- <- <-.
    destruct (IH _ _ _ _ _ E2) as (Hm & Ha & Hd).
    unfold update_one_node in E1.
    destruct (update_node_info _ rni rs ws) as [[node' decl]|] eqn:Eu; [|discriminate]. simpl in E1.
    destruct (slice_from name 1) as [fn|] eqn:Efn; [|discriminate]. simpl in E1.
    injection E1 as <- <- <-.
    split; [|split].
    + intros k. rewrite Hm. simpl. rewrite not_elem_of_cons. split.
      * intros [Hk Hl]. rewrite lookup_insert_None in Hk. destruct Hk as [Hk Hne].
        split; [exact Hk|split; [congruence|exact Hl]].
      * intros [Hk [Hne Hl]]. rewrite lookup_insert_None.
        split; [split; [exact Hk|congruence]|exact Hl].
    + intros k Hk. rewrite Ha.
      * rewrite lookup_insert_ne; [reflexivity|].
        intros Heq. apply (Hk name fn); [apply elem_of_cons; left; reflexivity|exact Efn|].
        symmetry. exact Heq.
      * intros name' fn' Hin Hfn'. apply (Hk name' fn'); [apply elem_of_cons; right; exact Hin|exact Hfn'].
    + apply Forall_app. split; [exact (update_node_info_discovered _ _ _ _ _ _ Eu)|exact Hd].
Qed.

Lemma retain_fold_slices pgid seq :
  forall l a a', fold_option (retain_admin pgid seq) a l = Some a' ->
  forall name, name ∈ l -> seq !! name = None -> is_Some (slice_from name 1).
Proof.
  induction l as [|name0 l IH]; intros a a' H name Hin Hseq; cbn [fold_option] in H.
  - apply elem_of_nil in Hin. contradiction.
  - destruct (retain_admin pgid seq a name0) as [a1|] eqn:E; [|discriminate]. simpl in H.
    apply elem_of_cons in Hin as [<-|Hin]; [|exact (IH _ _ H _ Hin Hseq)].
    unfold retain_admin in E. rewrite Hseq in E.
    destruct (slice_from name 1); [eauto|discriminate].
Qed.

Lemma not_elem_of_keys {A} (m : gmap string A) k :
  k ∉ (map_to_list m).*1 <-> m !! k = None.
Proof.
  split.
  - intros Hn. destruct (m !! k) as [v|] eqn:E; [|reflexivity]. exfalso. apply Hn.
    apply list_elem_of_fmap. exists (k, v). split; [reflexivity|]. apply elem_of_map_to_list. exact E.
  - intros Hk Hin. apply list_elem_of_fmap in Hin as ([k' v] & Heq & Hin). simpl in Heq. subst k'.
    apply elem_of_map_to_list in Hin. congruence.
Qed.

(** C2 (corrected): [update_participant_info] emits no [Undiscovered*]
    event.  Every event it declares is a [Discovered*] one; the nodes of
    the participant after the call are exactly those of the new manifest,
    so a node absent from it is dropped, and (node names starting with '/')
    its admin-space entry is removed; [remove_all_entities] is not called,
    so nothing is emitted for the dropped node's interfaces.  The new
    manifest is stored. *)
Theorem update_participant_info_drops_nodes_silently (de de' : DiscoveredEntities)
    (ri : ParticipantEntitiesInfo) (declared : list ROS2DiscoveryEvent)
    (H : update_participant_info de ri = Some (de', declared))
    (Hslash : forall name, is_Some (node_entities_info_seq ri !! name) ->
              exists r, name = String "/"%char r) :
  ros_participant_info de' !! gid ri = Some ri
  /\ Forall (fun e => is_discovered_event e = true) declared
  /\ (forall name, (nodes_info de' !! gid ri ≫= (fun m => m !! name)) = None
                   <-> node_entities_info_seq ri !! name = None)
  /\ (forall rest nd, (nodes_info de !! gid ri ≫= (fun m => m !! String "/"%char rest)) = Some nd ->
        node_entities_info_seq ri !! String "/"%char rest = None ->
        admin_space de' !! ke_admin_node (gid ri) rest = None).
Proof.
  unfold update_participant_info in H.
  set (seq := node_entities_info_seq ri) in *.
  set (nodes_map := default ∅ (nodes_info de !! gid ri)) in *.
  destruct (fold_option (retain_admin (gid ri) seq) (admin_space de) (map fst (map_to_list nodes_map)))
    as [admin1|] eqn:Er; [|discriminate]. cbn [mbind option_bind] in H.
  set (nodes_map1 := filter (fun kv => is_Some (seq !! kv.1)) nodes_map) in *.
  destruct (fold_declare (update_one_node (gid ri) (readers de) (writers de)) (nodes_map1, admin1)
              (map_to_list seq)) as [[[m2 a2] d]|] eqn:Ef; [|discriminate].
  cbn [mbind option_bind] in H. injection H as <- <-.
  destruct (update_nodes_fold _ _ _ _ _ _ _ _ _ Ef) as (Hm & Ha & Hd).
  split; [simpl; apply lookup_insert_eq|].
  split; [exact Hd|].
  split.
  - intros name. simpl. rewrite lookup_insert_eq. simpl. rewrite Hm, not_elem_of_keys.
    split; [intros [_ Hn]; exact Hn|intros Hn; split; [|exact Hn]].
    apply map_lookup_filter_None_2. right. intros x _ Hs. simpl in Hs. rewrite Hn in Hs.
    destruct Hs as [? Hs]. discriminate.
  - intros rest nd Hnd Hseq. simpl.
    assert (Hin : String "/"%char rest ∈ map fst (map_to_list nodes_map)).
    { apply list_elem_of_In, in_map_iff. exists (String "/"%char rest, nd). split; [reflexivity|].
      apply list_elem_of_In, elem_of_map_to_list. unfold nodes_map.
      destruct (nodes_info de !! gid ri); [exact Hnd|discriminate]. }
    destruct (retain_fold_slices _ _ _ _ _ Er _ Hin Hseq) as [fn Hfn].
    pose proof (slice_from_1_cons _ _ _ Hfn) as ->.
    rewrite Ha.
    + exact (retain_fold_removes _ _ _ _ _ Er _ _ Hin Hseq Hfn).
    + intros name' fn' Hin' Hfn' Heq.
      unfold ke_admin_node in Heq. injection Heq as <-.
      assert (Hs : is_Some (seq !! name')).
      { destruct (seq !! name') eqn:E; [eauto|]. apply not_elem_of_keys in E. contradiction. }
      destruct (Hslash name' Hs) as [r ->].
      pose proof (slice_from_1_cons _ _ _ Hfn') as ->.
      rewrite Hseq in Hs. destruct Hs as [? Hs]. discriminate.
Qed.

Lemma update_participant_info_drops_nodes_silently_witness :
  exists de' d, update_participant_info registry_after_manifest manifest_empty = Some (de', d)
  /\ d = []
  /\ (nodes_info de' !! 1%N ≫= (fun m => m !! "/n")) = None
  /\ admin_space de' !! ke_admin_node 1%N "n" = None.
Proof.
  destruct (update_participant_info registry_after_manifest manifest_empty) as [[de' d]|] eqn:E;
    [|vm_compute in E; discriminate].
  exists de', d. split; [reflexivity|].
  assert (Hd : d = []) by (vm_compute in E; injection E as _ <-; reflexivity).
  split; [exact Hd|].
  assert (Hslash : forall name, is_Some (node_entities_info_seq manifest_empty !! name) ->
                   exists r, name = String "/" r).
  { intros name [x Hx]. vm_compute in Hx. discriminate. }
  destruct (update_participant_info_drops_nodes_silently _ _ _ _ E Hslash) as (_ & _ & Hn & Ha).
  split.
  - apply (Hn "/n"). vm_compute. reflexivity.
  - destruct (nodes_info registry_after_manifest !! 1%N ≫= (fun m => m !! "/n")) as [nd|] eqn:En;
      [|vm_compute in En; discriminate].
    apply (Ha "n" nd En). vm_compute. reflexivity.
Defined.

(** C2 counterexample: P1's manifest first lists node "/n" publishing
    "foo", and a later manifest lists no node.  The update drops "/n" and
    its admin entry but declares no event, while [remove_all_entities] on
    the dropped node would have produced [UndiscoveredTopicPub]. *)
Lemma update_participant_info_no_undiscovered_counterexample :
  is_Some (admin_space registry_after_manifest !! ke_admin_node 1%N "n")
  /\ (snd <$> update_participant_info registry_after_manifest manifest_empty) = Some []
  /\ (snd <$> (remove_all_entities <$>
        (nodes_info registry_after_manifest !! 1%N ≫= (fun m => m !! "/n"))))
     = Some [UndiscoveredTopicPub "/n" (TopicPub.mk "foo" "pkg::dds_::Foo_" 11%N)].
Proof.
  split; [vm_compute; eexists; reflexivity|].
  split; vm_compute; reflexivity.
Qed.

Lemma add_local_node_in_use r node : is_unused (add_local_node r node) = false.
Proof.
  unfold is_unused, is_serving_local_node. simpl.
  rewrite bool_decide_false by set_solver. reflexivity.
Qed.

Lemma update_undiscovered_noop cp cs rm ev :
  is_discovered_event ev = false -> update cp cs rm ev = (rm, Ok tt).
Proof. destruct ev; simpl; congruence. Qed.

Lemma update_publishers_mono cp cs rm ev name r :
  routes_publishers rm !! name = Some r ->
  exists r', routes_publishers (fst (update cp cs rm ev)) !! name = Some r'
    /\ local_nodes r ⊆ local_nodes r' /\ remote_routes r' = remote_routes r.
Proof.
  intros H.
  destruct ev; simpl; try (exists r; split; [exact H|split; reflexivity]).
  - unfold update_route_publisher.
    destruct (routes_publishers rm !! TopicPub.name iface) as [r0|] eqn:E; simpl.
    + destruct (decide (name = TopicPub.name iface)) as [->|Hne].
      * rewrite lookup_insert_eq. rewrite E in H. injection H as ->.
        exists (add_local_node r node). split; [reflexivity|]. split; [simpl; set_solver|reflexivity].
      * rewrite lookup_insert_ne by congruence. exists r. split; [exact H|split; reflexivity].
    + destruct (writers (discovered_entities rm) !! TopicPub.writer iface) as [ent|]; simpl;
        [|exists r; split; [exact H|split; reflexivity]].
      destruct (cp _ _ _ _ _ _ _ _) as [route|e]; simpl;
        [|exists r; split; [exact H|split; reflexivity]].
      rewrite lookup_insert_ne by congruence. exists r. split; [exact H|split; reflexivity].
  - unfold update_route_subscriber.
    destruct (routes_subscribers rm !! TopicSub.name iface) as [r0|]; simpl;
      [exists r; split; [exact H|split; reflexivity]|].
    destruct (readers (discovered_entities rm) !! TopicSub.reader iface) as [ent|]; simpl;
      [|exists r; split; [exact H|split; reflexivity]].
    destruct (cs _ _ _ _ _ _ _ _) as [route|e]; simpl; (exists r; split; [exact H|split; reflexivity]).
Qed.

Lemma update_subscribers_mono cp cs rm ev name r :
  routes_subscribers rm !! name = Some r ->
  exists r', routes_subscribers (fst (update cp cs rm ev)) !! name = Some r'
    /\ local_nodes r ⊆ local_nodes r' /\ remote_routes r' = remote_routes r.
Proof.
  intros H.
  destruct ev; simpl; try (exists r; split; [exact H|split; reflexivity]).
  - unfold update_route_publisher.
    destruct (routes_publishers rm !! TopicPub.name iface) as [r0|]; simpl;
      [exists r; split; [exact H|split; reflexivity]|].
    destruct (writers (discovered_entities rm) !! TopicPub.writer iface) as [ent|]; simpl;
      [|exists r; split; [exact H|split; reflexivity]].
    destruct (cp _ _ _ _ _ _ _ _) as [route|e]; simpl; (exists r; split; [exact H|split; reflexivity]).
  - unfold update_route_subscriber.
    destruct (routes_subscribers rm !! TopicSub.name iface) as [r0|] eqn:E; simpl.
    + destruct (decide (name = TopicSub.name iface)) as [->|Hne].
      * rewrite lookup_insert_eq. rewrite E in H. injection H as ->.
        exists (add_local_node r node). split; [reflexivity|]. split; [simpl; set_solver|reflexivity].
      * rewrite lookup_insert_ne by congruence. exists r. split; [exact H|split; reflexivity].
    + destruct (readers (discovered_entities rm) !! TopicSub.reader iface) as [ent|]; simpl;
        [|exists r; split; [exact H|split; reflexivity]].
      destruct (cs _ _ _ _ _ _ _ _) as [route|e]; simpl;
        [|exists r; split; [exact H|split; reflexivity]].
      rewrite lookup_insert_ne by congruence. exists r. split; [exact H|split; reflexivity].
Qed.

Lemma update_admin_mono cp cs rm ev k :
  is_Some (routes_admin_space rm !! k) -> is_Some (routes_admin_space (fst (update cp cs rm ev)) !! k).
Proof.
  intros H. destruct ev; simpl; try exact H.
  - unfold update_route_publisher.
    destruct (routes_publishers rm !! TopicPub.name iface); simpl; [exact H|].
    destruct (writers (discovered_entities rm) !! TopicPub.writer iface); simpl; [|exact H].
    destruct (cp _ _ _ _ _ _ _ _); simpl; [|exact H].
    destruct (decide (k = ke_join KE_PREFIX_ROUTE_PUBLISHER (name_as_keyexpr (TopicPub.name iface))))
      as [->|Hne]; [rewrite lookup_insert_eq; eauto|rewrite lookup_insert_ne by congruence; exact H].
  - unfold update_route_subscriber.
    destruct (routes_subscribers rm !! TopicSub.name iface); simpl; [exact H|].
    destruct (readers (discovered_entities rm) !! TopicSub.reader iface); simpl; [|exact H].
    destruct (cs _ _ _ _ _ _ _ _); simpl; [|exact H].
    destruct (decide (k = ke_join KE_PREFIX_ROUTE_SUBSCRIBER (name_as_keyexpr (TopicSub.name iface))))
      as [->|Hne]; [rewrite lookup_insert_eq; eauto|rewrite lookup_insert_ne by congruence; exact H].
Qed.

Lemma update_in_use cp cs rm ev :
  routes_in_use rm -> routes_in_use (fst (update cp cs rm ev)).
Proof.
  intros Hu name r Hr. destruct ev; simpl in Hr; try exact (Hu _ _ Hr).
  - unfold update_route_publisher in Hr.
    destruct (routes_publishers rm !! TopicPub.name iface) eqn:E;
      [|destruct (writers (discovered_entities rm) !! TopicPub.writer iface);
        [destruct (cp _ _ _ _ _ _ _ _)|]]; simpl in Hr;
      try exact (Hu _ _ Hr);
      (destruct Hr as [Hr|Hr]; [|exact (Hu name r (or_intror Hr))]);
      (apply lookup_insert_Some in Hr as [[_ <-]|[_ Hr]];
       [apply add_local_node_in_use|exact (Hu name r (or_introl Hr))]).
  - unfold update_route_subscriber in Hr.
    destruct (routes_subscribers rm !! TopicSub.name iface) eqn:E;
      [|destruct (readers (discovered_entities rm) !! TopicSub.reader iface);
        [destruct (cs _ _ _ _ _ _ _ _)|]]; simpl in Hr;
      try exact (Hu _ _ Hr);
      (destruct Hr as [Hr|Hr]; [exact (Hu name r (or_introl Hr))|]);
      (apply lookup_insert_Some in Hr as [[_ <-]|[_ Hr]];
       [apply add_local_node_in_use|exact (Hu name r (or_intror Hr))]).
Qed.

Lemma run_updates_in_use cp cs evs :
  forall rm, routes_in_use rm -> routes_in_use (run_updates cp cs rm evs).
Proof.
  induction evs as [|ev evs IH]; intros rm Hu; simpl; [exact Hu|].
  apply IH, update_in_use, Hu.
Qed.

Lemma RoutesMgr_create_in_use c de : routes_in_use (RoutesMgr_create c de).
Proof.
  intros name r [Hr|Hr]; simpl in Hr; rewrite lookup_empty in Hr; discriminate.
Qed.

(** C4 (corrected): [RoutesMgr::update] never drops a route.  An
    [Undiscovered*] event (as every event other than [DiscoveredTopicPub]
    and [DiscoveredTopicSub]) leaves the manager unchanged, so no node is
    removed from a route's [local_nodes]; on any event a route present in a
    table stays there with [local_nodes] only growing and [remote_routes]
    unchanged, and admin-space keys are never removed.  Starting from
    [RoutesMgr::create], every route held after any sequence of updates
    serves at least one local node ([is_unused] is false), so no route with
    both reference sets empty is ever held either. *)
Theorem routes_mgr_never_drops_routes cp cs :
  (forall rm ev, is_discovered_event ev = false -> update cp cs rm ev = (rm, Ok tt))
  /\ (forall rm ev name r, routes_publishers rm !! name = Some r ->
        exists r', routes_publishers (fst (update cp cs rm ev)) !! name = Some r'
          /\ local_nodes r ⊆ local_nodes r' /\ remote_routes r' = remote_routes r)
  /\ (forall rm ev name r, routes_subscribers rm !! name = Some r ->
        exists r', routes_subscribers (fst (update cp cs rm ev)) !! name = Some r'
          /\ local_nodes r ⊆ local_nodes r' /\ remote_routes r' = remote_routes r)
  /\ (forall rm ev k, is_Some (routes_admin_space rm !! k) ->
        is_Some (routes_admin_space (fst (update cp cs rm ev)) !! k))
  /\ (forall c de evs, routes_in_use (run_updates cp cs (RoutesMgr_create c de) evs)).
Proof.
  split; [intros rm ev; apply update_undiscovered_noop|].
  split; [intros rm ev name r; apply update_publishers_mono|].
  split; [intros rm ev name r; apply update_subscribers_mono|].
  split; [intros rm ev k; apply update_admin_mono|].
  intros c de evs. apply run_updates_in_use, RoutesMgr_create_in_use.
Qed.

Lemma routes_mgr_never_drops_routes_witness :
  update create_pub_ok create_sub_ok (RoutesMgr_create (mkConfig None true) registry_foo)
    (UndiscoveredTopicPub "/a" foo_iface)
  = (RoutesMgr_create (mkConfig None true) registry_foo, Ok tt)
  /\ routes_in_use (run_updates create_pub_ok create_sub_ok
                      (RoutesMgr_create (mkConfig None true) registry_foo) refcount_events).
Proof.
  destruct (routes_mgr_never_drops_routes create_pub_ok create_sub_ok) as (H1 & _ & _ & _ & H5).
  split; [apply H1; reflexivity|apply H5].
Defined.

(** C4 counterexample: nodes "/a" and "/b" publish "foo"; after
    [UndiscoveredTopicPub] for "/a" and then for "/b" the route "foo" is
    still held with [local_nodes = {"/a", "/b"}], and its admin entry is
    still there. *)
Lemma routes_refcount_counterexample :
  let rm := run_updates create_pub_ok create_sub_ok
              (RoutesMgr_create (mkConfig None true) registry_foo) refcount_events in
  routes_publishers rm !! "foo" = Some (mkRoute {[ "/a"; "/b" ]} ∅)
  /\ routes_admin_space rm !! "route/topic/pub/foo" = Some (PublisherRoute "foo").
Proof. split; vm_compute; reflexivity. Qed.

Lemma update_allowance_irrelevant cp cs rm a ev :
  update cp cs (with_allowance rm a) ev
  = (with_allowance (fst (update cp cs rm ev)) a, snd (update cp cs rm ev)).
Proof.
  destruct ev; try reflexivity; cbn;
    unfold update_route_publisher, update_route_subscriber; cbn; repeat case_match; reflexivity.
Qed.

(** C5 (corrected): [RoutesMgr::update] does not consult the configured
    allow/deny policy: replacing the [allowance] of the configuration
    changes neither the resulting tables nor the result.  A
    [DiscoveredTopicPub] for an interface without a route, whose writer is
    in the registry and whose native route creation succeeds, creates the
    route (serving the node) and its admin entry, whatever the policy. *)
Theorem routes_mgr_update_ignores_allowance cp cs :
  (forall rm a ev, update cp cs (with_allowance rm a) ev
                   = (with_allowance (fst (update cp cs rm ev)) a, snd (update cp cs rm ev)))
  /\ (forall rm node iface ent route,
        routes_publishers rm !! TopicPub.name iface = None ->
        writers (discovered_entities rm) !! TopicPub.writer iface = Some ent ->
        cp (TopicPub.name iface) (TopicPub.typ iface) (topic_name ent) (type_name ent) (keyless ent)
           (adapt_writer_qos_for_reader (qos ent)) (name_as_keyexpr (TopicPub.name iface))
           (reliable_routes_blocking (config rm)
            && is_writer_reliable (reliability (adapt_writer_qos_for_reader (qos ent))))
        = Ok route ->
        let rm' := fst (update cp cs rm (DiscoveredTopicPub node iface)) in
        routes_publishers rm' !! TopicPub.name iface = Some (add_local_node route node)
        /\ routes_admin_space rm' !! ke_join KE_PREFIX_ROUTE_PUBLISHER (TopicPub.name iface)
           = Some (PublisherRoute (TopicPub.name iface))
        /\ config rm' = config rm).
Proof.
  split; [intros; apply update_allowance_irrelevant|].
  intros rm node iface ent route Hr Hw Hc. simpl. unfold update_route_publisher.
  rewrite Hr, Hw. cbn zeta. rewrite Hc. simpl.
  split; [apply lookup_insert_eq|split; [apply lookup_insert_eq|reflexivity]].
Qed.

Lemma routes_mgr_update_ignores_allowance_witness :
  is_publisher_allowed allow_foo_publishers "bar/baz" = false
  /\ routes_publishers (fst (update create_pub_ok create_sub_ok rm_allow_foo
                               (DiscoveredTopicPub "/n" bar_baz_iface))) !! "bar/baz"
     = Some (add_local_node (mkRoute ∅ ∅) "/n").
Proof.
  split; [vm_compute; reflexivity|].
  destruct (routes_mgr_update_ignores_allowance create_pub_ok create_sub_ok) as [_ H].
  exact (proj1 (H rm_allow_foo "/n" bar_baz_iface foo_writer_entity (mkRoute ∅ ∅)
                  ltac:(vm_compute; reflexivity) ltac:(vm_compute; reflexivity) eq_refl)).
Defined.

(** C5 counterexample: with [allow.publishers = "^foo/.*$"] the policy
    permits "foo/bar" and denies "bar/baz", yet [RoutesMgr::update] on a
    [DiscoveredTopicPub] for "bar/baz" creates the route and its admin
    entry. *)
Lemma allow_policy_not_enforced_counterexample :
  is_publisher_allowed allow_foo_publishers "foo/bar" = true
  /\ is_publisher_allowed allow_foo_publishers "bar/baz" = false
  /\ routes_publishers rm_allow_foo !! "bar/baz" = None
  /\ routes_publishers (fst (update create_pub_ok create_sub_ok rm_allow_foo
                               (DiscoveredTopicPub "/n" bar_baz_iface))) !! "bar/baz"
     = Some (mkRoute {[ "/n" ]} ∅)
  /\ routes_admin_space (fst (update create_pub_ok create_sub_ok rm_allow_foo
                               (DiscoveredTopicPub "/n" bar_baz_iface))) !! "route/topic/pub/bar/baz"
     = Some (PublisherRoute "bar/baz").
Proof. repeat split; vm_compute; reflexivity. Qed.

Lemma digit_char_ok d : (d < 10)%N -> is_digit (digit_char d) = true /\ digit_val (digit_char d) = Some d.
Proof.
  intros H. unfold digit_val, is_digit, digit_char.
  rewrite Ascii.N_ascii_embedding by lia.
  assert (E : ((48 <=? 48 + d) && (48 + d <=? 57))%N = true)
    by (apply andb_true_intro; split; apply N.leb_le; lia).
  rewrite E. split; [reflexivity|f_equal; lia].
Qed.

Lemma mod10_lt n : (n mod 10 < 10)%N.
Proof. apply N.mod_lt. discriminate. Qed.

Lemma fmt_N_aux_digits fuel : forall n acc,
  all_digits acc = true -> all_digits (fmt_N_aux fuel n acc) = true.
Proof.
  induction fuel as [|f IH]; intros n acc H; simpl; [exact H|].
  assert (Hc : all_digits (String (digit_char (n mod 10)) acc) = true)
    by (simpl; rewrite (proj1 (digit_char_ok _ (mod10_lt n))); exact H).
  destruct (n / 10 =? 0)%N; [exact Hc|apply IH; exact Hc].
Qed.

Lemma fmt_N_aux_cons fuel : forall n c r, exists c' r', fmt_N_aux fuel n (String c r) = String c' r'.
Proof.
  induction fuel as [|f IH]; intros n c r; simpl; [eauto|].
  destruct (n / 10 =? 0)%N; [eauto|apply IH].
Qed.

Lemma fmt_N_aux_S f n acc :
  fmt_N_aux (S f) n acc
  = if (n / 10 =? 0)%N then String (digit_char (n mod 10)) acc
    else fmt_N_aux f (n / 10) (String (digit_char (n mod 10)) acc).
Proof. reflexivity. Qed.

Lemma fmt_N_cons n : exists c r, fmt_N n = String c r.
Proof.
  unfold fmt_N. rewrite fmt_N_aux_S. destruct (n / 10 =? 0)%N; [eauto|apply fmt_N_aux_cons].
Qed.

Lemma parse_digit_step d r a : (d < 10)%N ->
  parse_digits_aux (String (digit_char d) r) a = parse_digits_aux r (a * 10 + d)%N.
Proof. intros H. cbn [parse_digits_aux]. rewrite (proj2 (digit_char_ok d H)). reflexivity. Qed.

Lemma fmt_N_aux_parse fuel : forall n acc a, (n < 10 ^ N.of_nat (S fuel))%N ->
  exists k, parse_digits_aux (fmt_N_aux (S fuel) n acc) a = parse_digits_aux acc (a * 10 ^ k + n)%N.
Proof.
  induction fuel as [|f IH]; intros n acc a Hn; rewrite fmt_N_aux_S;
    pose proof (N.div_mod n 10 ltac:(discriminate)) as Hdm;
    destruct (N.eqb_spec (n / 10) 0) as [Hq|Hq].
  - rewrite parse_digit_step by apply mod10_lt. exists 1%N. f_equal. lia.
  - exfalso. apply Hq, N.div_small. simpl in Hn. lia.
  - rewrite parse_digit_step by apply mod10_lt. exists 1%N. f_equal. lia.
  - assert (Hlt : (n / 10 < 10 ^ N.of_nat (S f))%N).
    { apply N.Div0.div_lt_upper_bound. rewrite Nat2N.inj_succ, N.pow_succ_r' in Hn. exact Hn. }
    destruct (IH (n / 10)%N (String (digit_char (n mod 10)) acc) a Hlt) as [k Hk].
    rewrite Hk, parse_digit_step by apply mod10_lt.
    exists (k + 1)%N. f_equal. rewrite N.pow_add_r, N.pow_1_r. nia.
Qed.

Lemma parse_digits_fmt_N n : (n < 10 ^ 20)%N -> parse_digits (fmt_N n) = Some n.
Proof.
  intros Hn. destruct (fmt_N_cons n) as (c & r & Ec).
  unfold parse_digits. rewrite Ec, <- Ec.
  destruct (fmt_N_aux_parse 19 n EmptyString 0 Hn) as [k Hk].
  unfold fmt_N. rewrite Hk. simpl. reflexivity.
Qed.

Lemma fmt_N_digits n : all_digits (fmt_N n) = true.
Proof. apply fmt_N_aux_digits. reflexivity. Qed.

Lemma digit_not_sign c : is_digit c = true ->
  Ascii.eqb c "+"%char = false /\ Ascii.eqb c "-"%char = false.
Proof.
  intros H. split; [destruct (Ascii.eqb_spec c "+"%char)|destruct (Ascii.eqb_spec c "-"%char)];
    try reflexivity; subst c; vm_compute in H; discriminate.
Qed.

Lemma parse_u32_fmt_Z z : (0 <= z < 2 ^ 32)%Z -> parse_u32 (fmt_Z z) = Some z.
Proof.
  intros Hz. unfold fmt_Z. rewrite (proj2 (Z.ltb_ge z 0)) by lia.
  pose proof (fmt_N_digits (Z.to_N z)) as Hd.
  destruct (fmt_N_cons (Z.to_N z)) as (c & r & Ec).
  unfold parse_u32. rewrite Ec. rewrite Ec in Hd. simpl in Hd. apply andb_prop in Hd as [Hc _].
  rewrite (proj1 (digit_not_sign _ Hc)). rewrite <- Ec.
  rewrite parse_digits_fmt_N by lia. simpl.
  rewrite (proj2 (N.ltb_lt _ _)) by lia. f_equal. lia.
Qed.

Lemma parse_i32_fmt_Z z : (- 2 ^ 31 <= z < 2 ^ 31)%Z -> parse_i32 (fmt_Z z) = Some z.
Proof.
  intros Hz. unfold fmt_Z. destruct (Z.ltb_spec z 0) as [Hneg|Hpos].
  - pose proof (parse_digits_fmt_N (Z.to_N (- z)) ltac:(lia)) as Hp.
    remember (fmt_N (Z.to_N (- z))) as s eqn:Es. cbn [parse_i32 Ascii.eqb Bool.eqb].
    rewrite Hp. cbn [mbind option_bind].
    rewrite (proj2 (N.leb_le _ _)) by lia. f_equal. lia.
  - pose proof (fmt_N_digits (Z.to_N z)) as Hd.
    destruct (fmt_N_cons (Z.to_N z)) as (c & r & Ec).
    unfold parse_i32. rewrite Ec. rewrite Ec in Hd. simpl in Hd. apply andb_prop in Hd as [Hc _].
    rewrite (proj2 (digit_not_sign _ Hc)), (proj1 (digit_not_sign _ Hc)). rewrite <- Ec.
    rewrite parse_digits_fmt_N by lia. simpl.
    rewrite (proj2 (N.ltb_lt _ _)) by lia. f_equal. lia.
Qed.

Lemma has_char_app c s1 s2 : has_char c (String.append s1 s2) = has_char c s1 || has_char c s2.
Proof. induction s1 as [|d r IH]; simpl; [reflexivity|rewrite IH, orb_assoc; reflexivity]. Qed.

Lemma all_digits_no_char c s : is_digit c = false -> all_digits s = true -> has_char c s = false.
Proof.
  intros Hc. induction s as [|d r IH]; simpl; [reflexivity|].
  intros H. apply andb_prop in H as [Hd Hr]. rewrite IH by exact Hr.
  destruct (Ascii.eqb_spec d c) as [->|]; [congruence|reflexivity].
Qed.

Lemma fmt_Z_no_char c z : is_digit c = false -> c <> "-"%char -> has_char c (fmt_Z z) = false.
Proof.
  intros Hc Hm. unfold fmt_Z. destruct (z <? 0)%Z;
    [|apply all_digits_no_char; auto using fmt_N_digits].
  pose proof (fmt_N_digits (Z.to_N (- z))) as Hd.
  remember (fmt_N (Z.to_N (- z))) as s eqn:Es. cbn [has_char].
  destruct (Ascii.eqb_spec "-"%char c) as [E|]; [congruence|].
  apply all_digits_no_char; auto.
Qed.

Lemma split_char_app c s1 s2 : has_char c s1 = false ->
  split_char c (String.append s1 (String c s2)) = s1 :: split_char c s2.
Proof.
  induction s1 as [|d r IH]; simpl; intros H.
  - rewrite Ascii.eqb_refl. reflexivity.
  - apply orb_false_elim in H as [Hd Hr]. rewrite Hd, IH by exact Hr. reflexivity.
Qed.

Lemma split_char_none c s : has_char c s = false -> split_char c s = [s].
Proof.
  induction s as [|d r IH]; simpl; intros H; [reflexivity|].
  apply orb_false_elim in H as [Hd Hr]. rewrite Hd, IH by exact Hr. reflexivity.
Qed.

Lemma split_once_app c s1 s2 : has_char c s1 = false ->
  split_once c (String.append s1 (String c s2)) = Some (s1, s2).
Proof.
  induction s1 as [|d r IH]; simpl; intros H.
  - rewrite Ascii.eqb_refl. reflexivity.
  - apply orb_false_elim in H as [Hd Hr]. rewrite Hd, IH by exact Hr. reflexivity.
Qed.

Lemma append_empty_l s : String.append EmptyString s = s.
Proof. reflexivity. Qed.

Lemma append_single c s : String.append (String c EmptyString) s = String c s.
Proof. reflexivity. Qed.

Lemma split_char_4 c a b d e :
  has_char c a = false -> has_char c b = false -> has_char c d = false -> has_char c e = false ->
  split_char c (String.append a (String.append (String c EmptyString) (String.append b
    (String.append (String c EmptyString) (String.append d (String.append (String c EmptyString) e))))))
  = [a; b; d; e].
Proof.
  intros Ha Hb Hd He. rewrite !append_single.
  rewrite split_char_app by exact Ha. rewrite split_char_app by exact Hb.
  rewrite split_char_app by exact Hd. rewrite split_char_none by exact He. reflexivity.
Qed.

Lemma qos_to_key_expr_split keyless rel dur hist ds :
  split_char ":"%char (qos_to_key_expr keyless (mkQos rel dur hist ds))
  = [if keyless then EmptyString else "K";
     match rel with Some r => fmt_Z (ReliabilityKind_as_isize (rel_kind r)) | None => EmptyString end;
     match dur with Some d => fmt_Z (DurabilityKind_as_isize (dur_kind d)) | None => EmptyString end;
     match hist with
     | Some h => String.append (fmt_Z (HistoryKind_as_isize (hist_kind h)))
                   (String.append "," (fmt_Z (depth h)))
     | None => EmptyString
     end].
Proof.
  assert (Hz : forall z, has_char ":"%char (fmt_Z z) = false)
    by (intros z; apply fmt_Z_no_char; [reflexivity|discriminate]).
  unfold qos_to_key_expr. simpl reliability. simpl durability. simpl history.
  apply split_char_4.
  - destruct keyless; reflexivity.
  - destruct rel; [apply Hz|reflexivity].
  - destruct dur; [apply Hz|reflexivity].
  - destruct hist; [|reflexivity].
    rewrite has_char_app, Hz, append_single. cbn [has_char]. rewrite Hz. reflexivity.
Qed.

(** C8 (corrected): the parser inverts the serializer on the QoS it can
    represent: the digest keeps only the kinds of reliability, durability
    and history and the history depth, and the parser sets
    [max_blocking_time] to [DDS_100MS_DURATION] and no other policy.  So
    [key_expr_to_qos (qos_to_key_expr keyless qos) = Ok (keyless, qos)]
    for every [qos] without a durability-service policy whose reliability,
    when set, has [max_blocking_time = DDS_100MS_DURATION] (the history
    depth being an i32). *)
Theorem key_expr_to_qos_roundtrip keyless qos
    (Hds : durability_service qos = None)
    (Hrel : forall r, reliability qos = Some r -> max_blocking_time r = DDS_100MS_DURATION)
    (Hdepth : forall h, history qos = Some h -> (- 2 ^ 31 <= depth h < 2 ^ 31)%Z) :
  key_expr_to_qos (qos_to_key_expr keyless qos) = Some (Ok (keyless, qos)).
Proof.
  destruct qos as [rel dur hist ds]; simpl in Hds, Hrel, Hdepth; subst ds.
  unfold key_expr_to_qos. rewrite qos_to_key_expr_split.
  destruct rel as [[rk mbt]|]; [specialize (Hrel _ eq_refl); simpl in Hrel; subst mbt|].
  all: destruct hist as [[hk d]|];
    [specialize (Hdepth _ eq_refl); simpl in Hdepth;
     pose proof (parse_i32_fmt_Z d Hdepth) as Hp;
     change (fmt_Z (depth {| hist_kind := hk; depth := d |})) with (fmt_Z d);
     remember (fmt_Z d) as sd|].
  all: destruct dur as [[dk]|]; try destruct rk; try destruct dk; try destruct hk;
    destruct keyless; simpl; rewrite ?append_empty_l; try rewrite Hp; reflexivity.
Qed.

Lemma key_expr_to_qos_roundtrip_witness :
  key_expr_to_qos (qos_to_key_expr false
    (mkQos (Some (mkReliability RELIABLE DDS_100MS_DURATION)) (Some (mkDurability TRANSIENT_LOCAL))
           (Some (mkHistory KEEP_LAST 3)) None))
  = Some (Ok (false, mkQos (Some (mkReliability RELIABLE DDS_100MS_DURATION))
                        (Some (mkDurability TRANSIENT_LOCAL)) (Some (mkHistory KEEP_LAST 3)) None)).
Proof.
  apply key_expr_to_qos_roundtrip; simpl.
  - reflexivity.
  - intros r Hr. injection Hr as <-. reflexivity.
  - intros h Hh. injection Hh as <-. simpl. lia.
Defined.

(** C8 counterexample: a QoS setting only reliability, RELIABLE with a
    zero [max_blocking_time], is digested as ":1::" and parsed back with
    [max_blocking_time = DDS_100MS_DURATION]. *)
Lemma qos_roundtrip_blocking_time_counterexample :
  qos_to_key_expr true (mkQos (Some (mkReliability RELIABLE 0)) None None None) = ":1::"
  /\ key_expr_to_qos ":1::"
     = Some (Ok (true, mkQos (Some (mkReliability RELIABLE DDS_100MS_DURATION)) None None None))
  /\ mkQos (Some (mkReliability RELIABLE DDS_100MS_DURATION)) None None None
     <> mkQos (Some (mkReliability RELIABLE 0)) None None None.
Proof.
  split; [vm_compute; reflexivity|]. split; [vm_compute; reflexivity|].
  intros H. injection H. unfold DDS_100MS_DURATION. discriminate.
Qed.

(** C9 (code bug): the publication-cache history of a publisher route
    does not depend on the writer's durability service:
    [adapt_writer_qos_for_reader] clears it before [RoutePublisher::create]
    reads [durability_service.max_instances], which then always comes from
    [DurabilityService::default()].  Keyed writers differing only in
    [max_instances] (10 or 1) get the same history; with an unlimited
    default it is [usize::MAX] where the spec's computation on the writer's
    QoS gives 50.  The keyless case gives 5, as the spec says. *)
Theorem publication_cache_ignores_writer_durability_service ds_default :
  (forall e1 e2, keyless e1 = keyless e2 -> reliability (qos e1) = reliability (qos e2) ->
     durability (qos e1) = durability (qos e2) -> history (qos e1) = history (qos e2) ->
     route_cache_history ds_default e1 = route_cache_history ds_default e2)
  /\ route_cache_history ds_default (keyed_tl_writer 10) = route_cache_history ds_default (keyed_tl_writer 1)
  /\ spec_route_cache_history ds_default (keyed_tl_writer 10) = Some 50%Z
  /\ (max_instances ds_default = DDS_LENGTH_UNLIMITED ->
      route_cache_history ds_default (keyed_tl_writer 10) = Some usize_MAX)
  /\ route_cache_history ds_default keyless_tl_writer = Some 5%Z.
Proof.
  split.
  { intros e1 e2 Hk Hr Hd Hh. unfold route_cache_history, adapt_writer_qos_for_reader.
    rewrite Hk, Hr, Hd, Hh. reflexivity. }
  split; [reflexivity|].
  split; [reflexivity|].
  split; [|reflexivity].
  intros Hmi. destruct ds_default as [sc hk hd ms mi mspi]. simpl in Hmi. subst mi.
  reflexivity.
Qed.

Lemma publication_cache_ignores_writer_durability_service_witness :
  route_cache_history (mkDurabilityService 0 KEEP_LAST 1 DDS_LENGTH_UNLIMITED DDS_LENGTH_UNLIMITED
                         DDS_LENGTH_UNLIMITED) (keyed_tl_writer 10) = Some usize_MAX
  /\ spec_route_cache_history (mkDurabilityService 0 KEEP_LAST 1 DDS_LENGTH_UNLIMITED DDS_LENGTH_UNLIMITED
                         DDS_LENGTH_UNLIMITED) (keyed_tl_writer 10) = Some 50%Z.
Proof.
  destruct (publication_cache_ignores_writer_durability_service
              (mkDurabilityService 0 KEEP_LAST 1 DDS_LENGTH_UNLIMITED DDS_LENGTH_UNLIMITED
                 DDS_LENGTH_UNLIMITED)) as (_ & _ & H3 & H4 & _).
  split; [apply H4; reflexivity|exact H3].
Defined.

(* ------------------------------------------------------------------ *)
(** ** Namespace and name of a node *)

Lemma length_append' s1 s2 :
  String.length (String.append s1 s2) = (String.length s1 + String.length s2)%nat.
Proof. induction s1; simpl; auto. Qed.

Lemma append_assoc' a b c : String.append a (String.append b c) = String.append (String.append a b) c.
Proof. induction a as [|x r IH]; [reflexivity|exact (f_equal (String x) IH)]. Qed.

Lemma get_append_length p s : String.get (String.length p) (String.append p s) = String.get 0 s.
Proof. induction p; simpl; auto. Qed.

Lemma substring_append_prefix p s : String.substring 0 (String.length p) (String.append p s) = p.
Proof. induction p; simpl; [destruct s; reflexivity|f_equal; auto]. Qed.

Lemma substring_append_suffix p s :
  String.substring (String.length p) (String.length (String.append p s) - String.length p)
    (String.append p s) = s.
Proof.
  rewrite length_append'. replace (String.length p + String.length s - String.length p)%nat
    with (String.length s) by lia.
  induction p; simpl; [apply substring_full|auto].
Qed.

Lemma slice_from_append p s : p <> EmptyString ->
  slice_from (String.append p s) (String.length p)
  = if starts_with_continuation_byte s then None else Some s.
Proof.
  intros Hp. pose proof (substring_append_suffix p s) as Hs.
  unfold slice_from, is_char_boundary. rewrite get_append_length, Hs.
  rewrite length_append'.
  assert (Hn : (String.length p =? 0)%nat = false) by (destruct p; [congruence|reflexivity]).
  rewrite Hn. rewrite (proj2 (Nat.leb_le _ _)) by lia.
  destruct s as [|c r]; simpl.
  - rewrite Nat.add_0_r, Nat.eqb_refl. reflexivity.
  - replace (String.length p =? String.length p + S (String.length r))%nat with false
      by (symmetry; apply Nat.eqb_neq; lia).
    destruct (is_continuation_byte c); reflexivity.
Qed.

Lemma slice_to_append p s : String.length p <> 0%nat ->
  slice_to (String.append p (String "/" s)) (String.length p) = Some p.
Proof.
  intros Hp. unfold slice_to, is_char_boundary. rewrite get_append_length, length_append'.
  rewrite (proj2 (Nat.leb_le _ _)) by lia.
  rewrite substring_append_prefix. simpl. rewrite !orb_true_r. reflexivity.
Qed.

(** X1: the namespace of a node built by [NodeInfo::create ns nn] is [ns],
    except that an empty namespace and the root namespace both give "/";
    it never panics. *)
Theorem namespace_of_create ns nn p :
  NodeInfo_namespace (NodeInfo.create ns nn p)
  = Some (if String.eqb ns EmptyString || String.eqb ns "/" then "/" else ns).
Proof.
  unfold NodeInfo_namespace, NodeInfo.create.
  destruct (String.eqb_spec ns "/") as [->|Hns]; [reflexivity|].
  destruct ns as [|c r]; [reflexivity|].
  cbn [NodeInfo.node_name_idx NodeInfo.fullname].
  rewrite orb_false_r. cbn [String.eqb].
  replace (String.length (String c r) + 1)%nat with (S (String.length (String c r))) by lia.
  cbn [Nat.eqb]. destruct (String.length r) eqn:E.
  - cbn [String.length]. rewrite E. cbn [Nat.eqb].
    rewrite <- E. change (S (String.length r)) with (String.length (String c r)).
    apply slice_to_append. discriminate.
  - cbn [String.length]. rewrite E. cbn [Nat.eqb].
    rewrite <- E. change (S (String.length r)) with (String.length (String c r)).
    apply slice_to_append. discriminate.
Qed.

(** X2: the name of a node built by [NodeInfo::create ns nn] is [nn]; it
    panics only if [nn] starts with a UTF-8 continuation byte, which a
    Rust [String] never does. *)
Theorem name_of_create ns nn p :
  NodeInfo_name (NodeInfo.create ns nn p)
  = if starts_with_continuation_byte nn then None else Some nn.
Proof.
  unfold NodeInfo_name, NodeInfo.create.
  destruct (String.eqb ns "/"); cbn [NodeInfo.node_name_idx NodeInfo.fullname].
  - apply (slice_from_append "/"). discriminate.
  - rewrite append_assoc'. rewrite Nat.add_1_r.
    replace (S (String.length ns)) with (String.length (String.append ns "/")).
    + apply slice_from_append. destruct ns; discriminate.
    + rewrite length_append'. simpl. lia.
Qed.

(* ------------------------------------------------------------------ *)
(** ** Allow and deny lists *)

(** X3: for each of the six [Allowance] checks, a deny list answers the
    opposite of an allow list with the same regexes; an allow list admits
    exactly the names its regex for that interface kind matches, and
    nothing when it has no regex for that kind (a deny list then admits
    everything). *)
Theorem allowance_allow_deny_complementary check field :
  (check, field) ∈ allowance_checks -> forall r name,
    check (Deny r) name = negb (check (Allow r) name)
    /\ check (Allow r) name = match field r with Some re => is_match re name | None => false end.
Proof.
  unfold allowance_checks. intros Hin r name.
  repeat (apply elem_of_cons in Hin as [Hin|Hin]; [injection Hin as -> ->;
    destruct r as [p s ss sc as' ac]; simpl;
    repeat match goal with |- context [match ?o with Some _ => _ | None => _ end] => destruct o end;
    simpl; rewrite ?negb_involutive; auto|]).
  apply elem_of_nil in Hin. contradiction.
Qed.

Lemma allowance_allow_deny_complementary_witness :
  is_action_cli_allowed (Deny (mkROS2InterfacesRegex None None None None None (Some re_foo_any))) "foo/a"
  = negb (is_action_cli_allowed (Allow (mkROS2InterfacesRegex None None None None None (Some re_foo_any))) "foo/a")
  /\ is_action_cli_allowed (Allow (mkROS2InterfacesRegex None None None None None (Some re_foo_any))) "foo/a"
     = is_match re_foo_any "foo/a".
Proof.
  apply (allowance_allow_deny_complementary is_action_cli_allowed action_clients).
  unfold allowance_checks. repeat (apply elem_of_cons; (left; reflexivity) || right).
Defined.

(* ------------------------------------------------------------------ *)
(** ** QoS adaptation *)

(** X4: the QoS [adapt_reader_qos_for_writer] derives from a reader's QoS
    for the route's DDS writer has the reader's QoS digest (when the reader
    sets a reliability), the same transient-local flag, always a
    reliability of the reader's kind (the default's when unset), and, for a
    transient-local reader, a durability service holding the reader's
    history (KEEP_LAST 1 when unset) with no sample or instance limit. *)
Theorem adapt_reader_qos_for_writer_keeps_reader_qos rel_default keyless q :
  (is_Some (reliability q) ->
     qos_to_key_expr keyless (adapt_reader_qos_for_writer rel_default q) = qos_to_key_expr keyless q)
  /\ is_transient_local (adapt_reader_qos_for_writer rel_default q) = is_transient_local q
  /\ (is_transient_local q = true ->
      exists ds, durability_service (adapt_reader_qos_for_writer rel_default q) = Some ds
        /\ mkHistory (history_kind ds) (history_depth ds) = get_history_or_default q
        /\ max_samples ds = DDS_LENGTH_UNLIMITED /\ max_instances ds = DDS_LENGTH_UNLIMITED
        /\ max_samples_per_instance ds = DDS_LENGTH_UNLIMITED)
  /\ exists r, reliability (adapt_reader_qos_for_writer rel_default q) = Some r
      /\ rel_kind r = rel_kind (default rel_default (reliability q)).
Proof.
  destruct q as [rel dur hist ds]. unfold adapt_reader_qos_for_writer. cbn zeta. simpl.
  split; [|split; [|split]].
  - intros [r ->]. reflexivity.
  - reflexivity.
  - intros ->. eexists. split; [reflexivity|]. unfold get_history_or_default; simpl.
    destruct hist as [[]|]; repeat split.
  - destruct rel; eexists; split; reflexivity.
Qed.

Lemma adapt_reader_qos_for_writer_keeps_reader_qos_witness :
  qos_to_key_expr true (adapt_reader_qos_for_writer (mkReliability BEST_EFFORT 0) tl_reliable_reader_qos)
  = qos_to_key_expr true tl_reliable_reader_qos
  /\ exists ds, durability_service (adapt_reader_qos_for_writer (mkReliability BEST_EFFORT 0)
                                     tl_reliable_reader_qos) = Some ds
       /\ mkHistory (history_kind ds) (history_depth ds) = mkHistory KEEP_LAST 5.
Proof.
  destruct (adapt_reader_qos_for_writer_keeps_reader_qos (mkReliability BEST_EFFORT 0) true
              tl_reliable_reader_qos) as (H1 & _ & H3 & _).
  split; [apply H1; eexists; reflexivity|].
  destruct (H3 eq_refl) as (ds & Hds & Hh & _). exists ds. split; [exact Hds|exact Hh].
Defined.

(** X5: [adapt_writer_qos_for_reader] is idempotent, always sets a
    reliability, and the result is reliable for a writer exactly when
    the original QoS is reliable for a reader (an unset reliability
    becomes BEST_EFFORT). *)
Theorem adapt_writer_qos_for_reader_idempotent q :
  adapt_writer_qos_for_reader (adapt_writer_qos_for_reader q) = adapt_writer_qos_for_reader q
  /\ is_Some (reliability (adapt_writer_qos_for_reader q))
  /\ is_writer_reliable (reliability (adapt_writer_qos_for_reader q)) = is_reader_reliable (reliability q).
Proof.
  destruct q as [[[[] m]|] dur hist ds]; repeat split; eexists; reflexivity.
Qed.

(* ------------------------------------------------------------------ *)
(** ** Route manager *)

(** X6: when [update_route_publisher] creates a route for a writer, the
    route's congestion control is [Block] exactly when
    [reliable_routes_blocking] is set and the writer's QoS explicitly sets
    RELIABLE: a writer without a reliability policy, which
    [is_writer_reliable] counts as reliable, gets no blocking. *)
Theorem update_route_publisher_block_flag create rm node iface entity :
  writers (discovered_entities rm) !! TopicPub.writer iface = Some entity ->
  update_route_publisher create rm node iface
  = update_route_publisher
      (fun n t tn ty kl q ke _ =>
         create n t tn ty kl q ke
           (reliable_routes_blocking (config rm) && is_reader_reliable (reliability (qos entity))))
      rm node iface.
Proof.
  intros Hw. unfold update_route_publisher.
  destruct (routes_publishers rm !! TopicPub.name iface); [reflexivity|].
  rewrite Hw. unfold adapt_writer_qos_for_reader.
  destruct (reliability (qos entity)) as [[[] m]|]; reflexivity.
Qed.

Lemma update_route_publisher_block_flag_witness :
  update_route_publisher create_pub_ok (RoutesMgr_create (mkConfig None true) registry_foo) "/a" foo_iface
  = update_route_publisher
      (fun n t tn ty kl q ke _ => create_pub_ok n t tn ty kl q ke (true && is_reader_reliable None))
      (RoutesMgr_create (mkConfig None true) registry_foo) "/a" foo_iface.
Proof.
  exact (update_route_publisher_block_flag create_pub_ok (RoutesMgr_create (mkConfig None true) registry_foo)
           "/a" foo_iface foo_writer_entity eq_refl).
Defined.

Lemma add_local_node_idem r n : add_local_node (add_local_node r n) n = add_local_node r n.
Proof. unfold add_local_node. simpl. f_equal. set_solver. Qed.

Lemma update_route_publisher_idem create rm node iface :
  fst (update_route_publisher create (fst (update_route_publisher create rm node iface)) node iface)
  = fst (update_route_publisher create rm node iface).
Proof.
  remember (update_route_publisher create rm node iface) as p eqn:Ep.
  unfold update_route_publisher in Ep.
  destruct (routes_publishers rm !! TopicPub.name iface) as [route|] eqn:Er.
  - subst p. simpl. unfold update_route_publisher. simpl. rewrite lookup_insert_eq.
    unfold with_routes_publishers. simpl. rewrite insert_insert_eq, add_local_node_idem. reflexivity.
  - destruct (writers (discovered_entities rm) !! TopicPub.writer iface) as [entity|] eqn:Ew.
    2: { subst p. simpl. unfold update_route_publisher. rewrite Er, Ew. reflexivity. }
    destruct (create _ _ _ _ _ _ _ _) as [route|e] eqn:Ec in Ep; subst p; simpl.
    + unfold update_route_publisher. simpl. rewrite lookup_insert_eq.
      unfold with_routes_publishers. simpl. rewrite insert_insert_eq, add_local_node_idem. reflexivity.
    + unfold update_route_publisher. rewrite Er, Ew, Ec. reflexivity.
Qed.

Lemma update_route_subscriber_idem create rm node iface :
  fst (update_route_subscriber create (fst (update_route_subscriber create rm node iface)) node iface)
  = fst (update_route_subscriber create rm node iface).
Proof.
  remember (update_route_subscriber create rm node iface) as p eqn:Ep.
  unfold update_route_subscriber in Ep.
  destruct (routes_subscribers rm !! TopicSub.name iface) as [route|] eqn:Er.
  - subst p. simpl. unfold update_route_subscriber. simpl. rewrite lookup_insert_eq.
    unfold with_routes_subscribers. simpl. rewrite insert_insert_eq, add_local_node_idem. reflexivity.
  - destruct (readers (discovered_entities rm) !! TopicSub.reader iface) as [entity|] eqn:Ew.
    2: { subst p. simpl. unfold update_route_subscriber. rewrite Er, Ew. reflexivity. }
    destruct (create _ _ _ _ _ _ _ _) as [route|e] eqn:Ec in Ep; subst p; simpl.
    + unfold update_route_subscriber. simpl. rewrite lookup_insert_eq.
      unfold with_routes_subscribers. simpl. rewrite insert_insert_eq, add_local_node_idem. reflexivity.
    + unfold update_route_subscriber. rewrite Er, Ew, Ec. reflexivity.
Qed.

(** X7: [RoutesMgr::update] is idempotent: handling the same discovery
    event a second time leaves the manager's state as the first call left
    it (with route constructors that answer the same on the same
    arguments). *)
Theorem update_idempotent create_pub create_sub rm ev :
  fst (update create_pub create_sub (fst (update create_pub create_sub rm ev)) ev)
  = fst (update create_pub create_sub rm ev).
Proof.
  destruct ev; simpl; try reflexivity.
  - apply update_route_publisher_idem.
  - apply update_route_subscriber_idem.
Qed.

(** X8: an [update] that returns an error leaves the route manager's
    state unchanged. *)
Theorem update_error_leaves_state create_pub create_sub rm ev e :
  snd (update create_pub create_sub rm ev) = Err e ->
  fst (update create_pub create_sub rm ev) = rm.
Proof.
  destruct ev; simpl; try discriminate.
  - unfold update_route_publisher.
    destruct (routes_publishers rm !! _); [discriminate|].
    destruct (writers _ !! _); [|reflexivity].
    destruct (create_pub _ _ _ _ _ _ _ _); [discriminate|reflexivity].
  - unfold update_route_subscriber.
    destruct (routes_subscribers rm !! _); [discriminate|].
    destruct (readers _ !! _); [|reflexivity].
    destruct (create_sub _ _ _ _ _ _ _ _); [discriminate|reflexivity].
Qed.

Lemma update_error_leaves_state_witness :
  snd (update create_pub_ok create_sub_ok (RoutesMgr_create (mkConfig None true) DiscoveredEntities_default)
         (DiscoveredTopicPub "/a" foo_iface))
  = Err "Failed to get DDS info for Writer. Already deleted ?"
  /\ fst (update create_pub_ok create_sub_ok (RoutesMgr_create (mkConfig None true) DiscoveredEntities_default)
         (DiscoveredTopicPub "/a" foo_iface))
     = RoutesMgr_create (mkConfig None true) DiscoveredEntities_default.
Proof.
  assert (H : snd (update create_pub_ok create_sub_ok
                     (RoutesMgr_create (mkConfig None true) DiscoveredEntities_default)
                     (DiscoveredTopicPub "/a" foo_iface))
              = Err "Failed to get DDS info for Writer. Already deleted ?") by reflexivity.
  split; [exact H|]. exact (update_error_leaves_state _ _ _ _ _ H).
Defined.

(* ------------------------------------------------------------------ *)
(** ** Route reference sets *)

Lemma prefix_refl s : String.prefix s s = true.
Proof. induction s as [|c r IH]; simpl; [reflexivity|]. destruct (ascii_dec c c); congruence. Qed.

Lemma str_contains_refl s : str_contains s s = true.
Proof. pose proof (prefix_refl s) as H. destruct s; simpl in *; [reflexivity|rewrite H; reflexivity]. Qed.

Lemma is_routing_remote_reader_spec rp k :
  is_routing_remote_reader rp k = true <-> exists s, s ∈ remote_routed_readers rp /\ str_contains s k = true.
Proof.
  unfold is_routing_remote_reader. rewrite existsb_exists. split.
  - intros (s & Hs & Hc). exists s. split; [|exact Hc].
    apply elem_of_elements, list_elem_of_In. exact Hs.
  - intros (s & Hs & Hc). exists s. split; [|exact Hc].
    apply list_elem_of_In, elem_of_elements. exact Hs.
Qed.

(** X9: after [remove_remote_routed_readers_containing k] a publisher
    route no longer reports routing a remote reader for [k], and it keeps
    every remote reader whose key expression does not contain [k]; a
    remote reader just added is reported as routed under its own key
    expression. *)
Theorem remove_remote_routed_readers_containing_spec rp k a :
  is_routing_remote_reader (remove_remote_routed_readers_containing rp k) k = false
  /\ is_routing_remote_reader (add_remote_routed_reader rp a) a = true
  /\ (forall s, s ∈ remote_routed_readers rp -> str_contains s k = false ->
      s ∈ remote_routed_readers (remove_remote_routed_readers_containing rp k)).
Proof.
  split; [|split].
  - destruct (is_routing_remote_reader _ k) eqn:E; [|reflexivity].
    apply is_routing_remote_reader_spec in E as (s & Hs & Hc).
    simpl in Hs. apply elem_of_filter in Hs as [Hf _]. congruence.
  - apply is_routing_remote_reader_spec. exists a. split; [simpl; set_solver|apply str_contains_refl].
  - intros s Hs Hc. simpl. apply elem_of_filter. auto.
Qed.

Lemma remove_remote_routed_readers_containing_spec_witness :
  is_routing_remote_reader
    (remove_remote_routed_readers_containing (mkRoutePublisherRefs {["a/k/1"; "b"]} ∅) "k") "k" = false
  /\ "b" ∈ remote_routed_readers
             (remove_remote_routed_readers_containing (mkRoutePublisherRefs {["a/k/1"; "b"]} ∅) "k").
Proof.
  destruct (remove_remote_routed_readers_containing_spec (mkRoutePublisherRefs {["a/k/1"; "b"]} ∅) "k" "c")
    as (H1 & _ & H3).
  split; [exact H1|]. apply H3; [simpl; set_solver|reflexivity].
Defined.

(** X10: a subscriber route is unused after removing local node [n] and
    the remote routes containing [k] exactly when [n] was its only local
    node and every remote route contained [k]. *)
Theorem route_subscriber_unused_after_removals r n k :
  is_unused (remove_remote_routes (remove_local_node r n) k) = true
  <-> local_nodes r ⊆ {[n]} /\ (forall s, s ∈ remote_routes r -> str_contains s k = true).
Proof.
  unfold is_unused, is_serving_local_node, is_serving_remote_route. simpl.
  rewrite andb_true_iff, !negb_involutive, !bool_decide_eq_true.
  split.
  - intros [H1 H2]. split.
    + intros x Hx. destruct (decide (x = n)) as [->|Hne]; [set_solver|].
      assert (x ∈ local_nodes r ∖ {[n]}) by set_solver. set_solver.
    + intros s Hs. destruct (str_contains s k) eqn:E; [reflexivity|].
      assert (s ∈ filter (fun s => str_contains s k = false) (remote_routes r))
        by (apply elem_of_filter; auto). set_solver.
  - intros [H1 H2]. split; [set_solver|].
    apply set_eq. intros s. rewrite elem_of_filter. split; [|set_solver].
    intros [Hc Hs]. rewrite H2 in Hc by exact Hs. discriminate.
Qed.

Lemma route_subscriber_unused_after_removals_witness :
  is_unused (remove_remote_routes (remove_local_node (mkRoute {["/a"]} {["x/k"]}) "/a") "k") = true.
Proof.
  apply (route_subscriber_unused_after_removals (mkRoute {["/a"]} {["x/k"]}) "/a" "k").
  split; [simpl; set_solver|].
  intros s Hs. simpl in Hs. apply elem_of_singleton in Hs. subst s. reflexivity.
Defined.

(* ------------------------------------------------------------------ *)
(** ** Removals from the registry *)

(** X11: removing a writer (reader) just added to a registry that held no
    entry under its Gid nor its admin key gives back the registry. *)
Theorem remove_writer_reader_after_add de w r :
  writers de !! key w = None ->
  admin_space de !! ke_admin_writer (participant_key w) (key w) (topic_name w) = None ->
  readers de !! key r = None ->
  admin_space de !! ke_admin_reader (participant_key r) (key r) (topic_name r) = None ->
  DiscoveredEntities_remove_writer (add_writer de w) (key w) = de
  /\ DiscoveredEntities_remove_reader (add_reader de r) (key r) = de.
Proof.
  intros Hw Haw Hr Har. destruct de as [ws rs pi ni adm]; simpl in *.
  unfold DiscoveredEntities_remove_writer, DiscoveredEntities_remove_reader, add_writer, add_reader.
  simpl. rewrite !lookup_insert_eq. split; f_equal; apply delete_insert_id; assumption.
Qed.

Lemma remove_writer_reader_after_add_witness :
  DiscoveredEntities_remove_writer (add_writer DiscoveredEntities_default pub_foo_writer) (key pub_foo_writer)
  = DiscoveredEntities_default
  /\ DiscoveredEntities_remove_reader (add_reader DiscoveredEntities_default foo_writer_entity)
       (key foo_writer_entity) = DiscoveredEntities_default.
Proof.
  apply remove_writer_reader_after_add; reflexivity.
Defined.

Lemma fold_delete_nodes g l admin :
  Forall (fun name => is_Some (slice_from name 1)) l ->
  exists admin', fold_option (remove_node_admin g) admin l = Some admin'
  /\ (forall name fn, name ∈ l -> slice_from name 1 = Some fn -> admin' !! ke_admin_node g fn = None)
  /\ (forall k, admin !! k = None -> admin' !! k = None).
Proof.
  revert admin. induction l as [|name l IH]; intros admin Hl.
  - exists admin. split; [reflexivity|]. split; [|auto].
    intros ? ? Hin. apply elem_of_nil in Hin. contradiction.
  - apply Forall_cons in Hl as [[fn Hfn] Hl]. cbn [fold_option].
    replace (remove_node_admin g admin name) with (Some (delete (ke_admin_node g fn) admin))
      by (unfold remove_node_admin; rewrite Hfn; reflexivity).
    destruct (IH (delete (ke_admin_node g fn) admin) Hl) as (admin' & E & Hdel & Hmono).
    exists admin'. split; [exact E|]. split.
    + intros name' fn' Hin Hs. apply elem_of_cons in Hin as [->|Hin]; [|eauto].
      rewrite Hfn in Hs. injection Hs as <-. apply Hmono. apply lookup_delete_eq.
    + intros k Hk. apply Hmono. rewrite lookup_delete_None. auto.
Qed.

(** X12: [remove_participant] (when no node name makes [&name[1..]]
    panic) drops the participant's nodes and removes the admin entries of
    the participant and of each of its nodes; it leaves the writers, the
    readers and the participant's last manifest in
    [ros_participant_info] in place. *)
Theorem remove_participant_cleans_admin_space de g nodes :
  nodes_info de !! g = Some nodes ->
  (forall name n, nodes !! name = Some n -> is_Some (slice_from name 1)) ->
  exists de', remove_participant de g = Some de'
    /\ nodes_info de' !! g = None
    /\ admin_space de' !! ke_admin_participant g = None
    /\ (forall name n fullname, nodes !! name = Some n -> slice_from name 1 = Some fullname ->
          admin_space de' !! ke_admin_node g fullname = None)
    /\ writers de' = writers de /\ readers de' = readers de
    /\ ros_participant_info de' = ros_participant_info de.
Proof.
  intros Hn Hs. unfold remove_participant. rewrite Hn.
  destruct (fold_delete_nodes g (map fst (map_to_list nodes)) (admin_space de)) as (adm & E & Hdel & _).
  { apply Forall_forall. intros name Hin.
    apply list_elem_of_In, in_map_iff in Hin as ([name' n] & <- & Hin).
    apply (Hs _ n). apply elem_of_map_to_list, list_elem_of_In. exact Hin. }
  rewrite E. simpl. eexists. split; [reflexivity|]. simpl.
  split; [apply lookup_delete_eq|]. split; [apply lookup_delete_eq|].
  split; [|auto].
  intros name n fn Hnm Hfn. rewrite lookup_delete_None. right. apply (Hdel name); [|exact Hfn].
  apply list_elem_of_In, in_map_iff. exists (name, n). split; [reflexivity|].
  apply list_elem_of_In, elem_of_map_to_list. exact Hnm.
Qed.

Lemma remove_participant_cleans_admin_space_witness :
  exists de', remove_participant registry_p1_n 1%N = Some de'
    /\ admin_space de' !! ke_admin_node 1%N "n" = None
    /\ admin_space de' !! ke_admin_participant 1%N = None.
Proof.
  destruct (remove_participant_cleans_admin_space registry_p1_n 1%N
              {["/n" := NodeInfo.create "/" "n" 1%N]}) as (de' & H1 & _ & H3 & H4 & _).
  - reflexivity.
  - intros name n H. apply lookup_singleton_Some in H as [<- _]. eexists. reflexivity.
  - exists de'. split; [exact H1|]. split; [|exact H3].
    apply (H4 "/n" (NodeInfo.create "/" "n" 1%N)); reflexivity.
Defined.

(* ------------------------------------------------------------------ *)
(** ** Parsing a QoS digest *)

Lemma parse_i32_range s d : parse_i32 s = Some d -> (- 2 ^ 31 <= d < 2 ^ 31)%Z.
Proof.
  unfold parse_i32. destruct s as [|c r]; [discriminate|].
  destruct (Ascii.eqb c "-"%char).
  - destruct (parse_digits r) as [n|]; simpl; [|discriminate].
    destruct (n <=? 2 ^ 31)%N eqn:E; [|discriminate]. intros [= <-].
    apply N.leb_le in E. lia.
  - destruct (parse_digits _) as [n|]; simpl; [|discriminate].
    destruct (n <? 2 ^ 31)%N eqn:E; [|discriminate]. intros [= <-].
    apply N.ltb_lt in E. lia.
Qed.

Lemma parse_u32_range s i : parse_u32 s = Some i -> (0 <= i < 2 ^ 32)%Z.
Proof.
  unfold parse_u32. destruct (parse_digits _) as [n|]; simpl; [|discriminate].
  destruct (n <? 2 ^ 32)%N eqn:E; [|discriminate]. intros [= <-]. apply N.ltb_lt in E. lia.
Qed.

Lemma res_bind_ok {A B} (x : option (Result A)) (k : A -> option (Result B)) b :
  res_bind x k = Some (Ok b) -> exists a, x = Some (Ok a) /\ k a = Some (Ok b).
Proof. destruct x as [[a|e]|]; simpl; [eauto|discriminate|discriminate]. Qed.

Lemma res_bind_none {A B} (x : option (Result A)) (k : A -> option (Result B)) :
  res_bind x k = None -> x = None \/ exists a, x = Some (Ok a) /\ k a = None.
Proof. destruct x as [[a|e]|]; simpl; [eauto|discriminate|auto]. Qed.

Lemma key_expr_to_qos_ok_inv ke keyless q :
  key_expr_to_qos ke = Some (Ok (keyless, q)) ->
  durability_service q = None
  /\ (forall r, reliability q = Some r -> max_blocking_time r = DDS_100MS_DURATION)
  /\ (forall h, history q = Some h -> (- 2 ^ 31 <= depth h < 2 ^ 31)%Z).
Proof.
  unfold key_expr_to_qos. intros H.
  destruct (split_char _ ke) as [|e0 [|e1 [|e2 [|e3 [|]]]]]; try discriminate.
  apply res_bind_ok in H as (rel & Hrel & H).
  apply res_bind_ok in H as (dur & _ & H).
  apply res_bind_ok in H as (hist & Hhist & H).
  injection H as <- <-. simpl. split; [reflexivity|split].
  - intros r ->. destruct (String.eqb e1 ""); [discriminate|].
    destruct (parse_u32 e1) as [i|]; [|discriminate].
    destruct (ReliabilityKind_from i); simpl in Hrel; [|discriminate].
    injection Hrel as <-. reflexivity.
  - intros h ->. destruct (String.eqb e3 ""); [discriminate|].
    destruct (split_once _ e3) as [[s1 s2]|]; simpl in Hhist; [|discriminate].
    destruct (parse_u32 s1) as [k|]; [|discriminate].
    destruct (parse_i32 s2) as [d|] eqn:Ed; [|discriminate].
    destruct (HistoryKind_from k); simpl in Hhist; [|discriminate].
    injection Hhist as <-. simpl. eapply parse_i32_range; eassumption.
Qed.

Lemma key_expr_to_qos_qos_to_key_expr keyless qos :
  durability_service qos = None ->
  (forall r, reliability qos = Some r -> max_blocking_time r = DDS_100MS_DURATION) ->
  (forall h, history qos = Some h -> (- 2 ^ 31 <= depth h < 2 ^ 31)%Z) ->
  key_expr_to_qos (qos_to_key_expr keyless qos) = Some (Ok (keyless, qos)).
Proof.
  intros Hds Hrel Hdepth.
  destruct qos as [rel dur hist ds]; simpl in Hds, Hrel, Hdepth; subst ds.
  unfold key_expr_to_qos. rewrite qos_to_key_expr_split.
  destruct rel as [[rk mbt]|]; [specialize (Hrel _ eq_refl); simpl in Hrel; subst mbt|].
  all: destruct hist as [[hk d]|];
    [specialize (Hdepth _ eq_refl); simpl in Hdepth;
     pose proof (parse_i32_fmt_Z d Hdepth) as Hp;
     change (fmt_Z (depth {| hist_kind := hk; depth := d |})) with (fmt_Z d);
     remember (fmt_Z d) as sd|].
  all: destruct dur as [[dk]|]; try destruct rk; try destruct dk; try destruct hk;
    destruct keyless; simpl; rewrite ?append_empty_l; try rewrite Hp; reflexivity.
Qed.

(** X13: every QoS [key_expr_to_qos] accepts has no durability service
    and, when it sets a reliability, a [max_blocking_time] of
    [DDS_100MS_DURATION]; digesting it again with [qos_to_key_expr] and
    parsing the digest gives back the same keyless flag and QoS (the
    digest may differ from the parsed text, e.g. "+1" or "01"). *)
Theorem key_expr_to_qos_reencode ke keyless q :
  key_expr_to_qos ke = Some (Ok (keyless, q)) ->
  durability_service q = None
  /\ (forall r, reliability q = Some r -> max_blocking_time r = DDS_100MS_DURATION)
  /\ key_expr_to_qos (qos_to_key_expr keyless q) = Some (Ok (keyless, q)).
Proof.
  intros H. destruct (key_expr_to_qos_ok_inv _ _ _ H) as (Hds & Hrel & Hd).
  split; [exact Hds|]. split; [exact Hrel|].
  apply key_expr_to_qos_qos_to_key_expr; assumption.
Qed.

Lemma key_expr_to_qos_reencode_witness :
  key_expr_to_qos "K:+1:01:0,5" = Some (Ok (false, tl_reliable_reader_qos'))
  /\ qos_to_key_expr false tl_reliable_reader_qos' = "K:1:1:0,5"
  /\ key_expr_to_qos "K:1:1:0,5" = Some (Ok (false, tl_reliable_reader_qos')).
Proof.
  assert (H : key_expr_to_qos "K:+1:01:0,5" = Some (Ok (false, tl_reliable_reader_qos')))
    by (vm_compute; reflexivity).
  split; [exact H|]. split; [vm_compute; reflexivity|].
  destruct (key_expr_to_qos_reencode _ _ _ H) as (_ & _ & H3). exact H3.
Defined.

(** X14: [key_expr_to_qos] returns an error, and never panics, on a key
    expression that does not have exactly four ':'-separated elements. *)
Theorem key_expr_to_qos_wrong_arity ke :
  length (split_char ":"%char ke) <> 4%nat -> exists e, key_expr_to_qos ke = Some (Err e).
Proof.
  intros Hl. unfold key_expr_to_qos.
  destruct (split_char _ ke) as [|e0 [|e1 [|e2 [|e3 [|]]]]]; simpl in Hl; try lia;
    eexists; reflexivity.
Qed.

Lemma key_expr_to_qos_wrong_arity_witness : exists e, key_expr_to_qos "K:1" = Some (Err e).
Proof. apply key_expr_to_qos_wrong_arity. vm_compute. discriminate. Defined.

(** X15: [key_expr_to_qos] panics only when a kind number (the second or
    third element, or the part of the fourth before ',') parses as a u32
    of at least 2 that [From<&u32>] does not know; otherwise it returns
    [Ok] or [Err]. *)
Theorem key_expr_to_qos_panics_only_on_unknown_kind ke :
  key_expr_to_qos ke = None ->
  exists e i, parse_u32 e = Some i /\ (2 <= i < 2 ^ 32)%Z
    /\ (e ∈ split_char ":"%char ke
        \/ exists e3 s2, e3 ∈ split_char ":"%char ke /\ split_once ","%char e3 = Some (e, s2)).
Proof.
  unfold key_expr_to_qos. intros H.
  destruct (split_char _ ke) as [|e0 [|e1 [|e2 [|e3 [|]]]]] eqn:Es; try discriminate.
  apply res_bind_none in H as [H|(rel & _ & H)].
  { destruct (String.eqb e1 ""); [discriminate|].
    destruct (parse_u32 e1) as [i|] eqn:Ei; [|discriminate].
    exists e1, i. pose proof (parse_u32_range _ _ Ei).
    split; [exact Ei|]. split; [|left; set_solver].
    destruct i as [|[p|p|]|p]; simpl in H; try discriminate; lia. }
  apply res_bind_none in H as [H|(dur & _ & H)].
  { destruct (String.eqb e2 ""); [discriminate|].
    destruct (parse_u32 e2) as [i|] eqn:Ei; [|discriminate].
    exists e2, i. pose proof (parse_u32_range _ _ Ei).
    split; [exact Ei|]. split; [|left; set_solver].
    destruct i as [|[p|[p|p|]|]|p]; simpl in H; try discriminate; lia. }
  apply res_bind_none in H as [H|(hist & _ & H)]; [|discriminate].
  destruct (String.eqb e3 ""); [discriminate|].
  destruct (split_once _ e3) as [[s1 s2]|] eqn:Eo; simpl in H; [|discriminate].
  destruct (parse_u32 s1) as [i|] eqn:Ei; [|discriminate].
  destruct (parse_i32 s2); [|discriminate].
  exists s1, i. pose proof (parse_u32_range _ _ Ei).
  split; [exact Ei|]. split; [|right; exists e3, s2; split; [set_solver|exact Eo]].
  destruct i as [|[p|p|]|p]; simpl in H; try discriminate; lia.
Qed.

Lemma key_expr_to_qos_panics_only_on_unknown_kind_witness :
  exists e i, parse_u32 e = Some i /\ (2 <= i < 2 ^ 32)%Z
    /\ (e ∈ split_char ":"%char ":7::"
        \/ exists e3 s2, e3 ∈ split_char ":"%char ":7::" /\ split_once ","%char e3 = Some (e, s2)).
Proof. apply key_expr_to_qos_panics_only_on_unknown_kind. vm_compute. reflexivity. Defined.

(* ------------------------------------------------------------------ *)
(** ** Publication cache size *)

(** X16: for a transient-local reader QoS with KEEP_LAST [n], [n] an i32
    that is not negative, the publication cache of a publisher route keeps
    at least [n] samples and at most [usize::MAX], exactly [n] on a
    keyless topic. *)
Theorem publication_cache_history_bounds ds_default keyless reader_qos n :
  is_transient_local reader_qos = true ->
  get_history_or_default reader_qos = mkHistory KEEP_LAST n ->
  (0 <= n < 2 ^ 31)%Z ->
  exists h, publication_cache_history ds_default keyless reader_qos = Some h
    /\ (n <= h <= usize_MAX)%Z /\ (keyless = true -> h = n).
Proof.
  intros Htl Hh Hn. unfold publication_cache_history. rewrite Htl, Hh. simpl.
  unfold i32_as_usize, usize_MAX.
  assert (Hm : (n mod 2 ^ 64 = n)%Z) by (apply Z.mod_small; lia).
  destruct keyless.
  - eexists. split; [reflexivity|]. rewrite Hm. split; [lia|auto].
  - set (mi := max_instances _).
    destruct (mi =? DDS_LENGTH_UNLIMITED)%Z.
    { eexists. split; [reflexivity|]. split; [lia|discriminate]. }
    destruct (0 <? mi)%Z eqn:Hpos.
    2: { eexists. split; [reflexivity|]. rewrite Hm. split; [lia|discriminate]. }
    apply Z.ltb_lt in Hpos. unfold i32_checked_mul.
    destruct ((- 2 ^ 31 <=? n * mi)%Z && (n * mi <? 2 ^ 31)%Z) eqn:Hr.
    + apply andb_prop in Hr as [_ Hr]. apply Z.ltb_lt in Hr.
      eexists. split; [reflexivity|]. rewrite Z.mod_small by nia. split; [nia|discriminate].
    + eexists. split; [reflexivity|]. split; [lia|discriminate].
Qed.

Lemma publication_cache_history_bounds_witness :
  exists h, publication_cache_history (mkDurabilityService 0 KEEP_LAST 1 (-1) 3 (-1)) false
              tl_reliable_reader_qos = Some h
    /\ (5 <= h <= usize_MAX)%Z /\ (false = true -> h = 5%Z).
Proof. apply publication_cache_history_bounds; [reflexivity|reflexivity|lia]. Defined.
